(** * SHIFT: the dimension state machine and its dependants

    A shallow embedding of the dimension core of the SHIFT platformer:
    [DimensionManager] (systems/DimensionManager.ts), the [Enemy] base
    class (entities/Enemy.ts) with its two concrete enemies, and the parts
    of [GameScene] (scenes/GameScene.ts) that build the two tile layers and
    react to a shift.

    The game runs on the Phaser 3 framework, which is not part of the
    repository.  The few Phaser operations the core calls are modelled in
    [Module Phaser] after their documented behaviour; each definition says
    which call it stands for. *)

From Stdlib Require Import ZArith NArith QArith Qabs Bool Lia Lqa.
From stdpp Require Import base list.

Local Open Scope Z_scope.

(** ** utils/Constants.ts *)

Module DIMENSIONS.

(** [DimensionType] is the union of the two string literals
    [DIMENSIONS.LUMINA | DIMENSIONS.UMBRA]. *)
Inductive DimensionType := LUMINA | UMBRA.

#[global] Instance DimensionType_eq_dec : EqDecision DimensionType.
Proof. solve_decision. Defined.

Definition SHIFT_DURATION_MS : N := 200%N.
Definition GHOST_ALPHA : Q := (2 # 10)%Q.
Definition LUMINA_TINT : Z := 0xffcc44.
Definition UMBRA_TINT : Z := 0x6644cc.

End DIMENSIONS.

Import DIMENSIONS.

(** ** The Phaser operations used by the core *)

Module Phaser.

(** A [Phaser.Tilemaps.Tile]: its tileset index ([-1] for an empty
    cell), its tint and its collision flag.  [Tile.setCollision(b)] writes
    the four directional flags together, and [Tile.collides] is their
    disjunction, so one boolean carries them. *)
Record Tile := mkTile { index : Z; tint : Z; collides : bool }.

(** A [Phaser.Tilemaps.TilemapLayer]: the layer-wide alpha and depth and
    the grid of tiles, [data[row][col]]. *)
Record TilemapLayer := mkLayer {
  alpha : Q;
  depth : Z;
  data : list (list Tile)
}.

(** The tint of an untinted game object: white. *)
Definition NO_TINT : Z := 0xffffff.

Definition blankTile : Tile :=
  {| index := -1; tint := NO_TINT; collides := false |}.

(** [tilemap.createBlankLayer(name, tileset, 0, 0, width, height, ..)]:
    a [height] x [width] grid of empty tiles, alpha 1, depth 0. *)
Definition createBlankLayer (width height : nat) : TilemapLayer :=
  {| alpha := 1%Q; depth := 0; data := replicate height (replicate width blankTile) |}.

Definition setAlpha (a : Q) (l : TilemapLayer) : TilemapLayer :=
  {| alpha := a; depth := depth l; data := data l |}.

Definition setDepth (d : Z) (l : TilemapLayer) : TilemapLayer :=
  {| alpha := alpha l; depth := d; data := data l |}.

(** [layer.forEachTile(callback)] visits every tile of the grid, empty
    ones included. *)
Definition forEachTile (f : Tile -> Tile) (l : TilemapLayer) : TilemapLayer :=
  {| alpha := alpha l; depth := depth l; data := fmap (M:=list) (fmap (M:=list) f) (data l) |}.

(** [tile.tint = c]. *)
Definition setTileTint (c : Z) (t : Tile) : Tile :=
  {| index := index t; tint := c; collides := collides t |}.

(** [tile.setCollision(b)]. *)
Definition setCollision (b : bool) (t : Tile) : Tile :=
  {| index := index t; tint := tint t; collides := b |}.

(** [layer.setCollisionByExclusion(indexes)]: every tile whose index is
    not listed becomes colliding; a tile whose index is listed is not
    touched. *)
Definition setCollisionByExclusion (indexes : list Z) (l : TilemapLayer)
  : TilemapLayer :=
  forEachTile
    (fun t => if bool_decide (index t ∈ indexes) then t else setCollision true t) l.

(** [layer.putTileAt(tileIndex, col, row)]: inside the grid the cell
    takes the new index; outside nothing happens.  The collision flag of
    the written tile is recomputed from the indexes registered as
    colliding on the layer, and none is registered while a level is
    being built, so it is [false]. *)
Definition putTileAt (tileIndex : Z) (col row : nat) (l : TilemapLayer)
  : TilemapLayer :=
  match data l !! row with
  | Some cells =>
      match cells !! col with
      | Some t =>
          {| alpha := alpha l; depth := depth l;
             data := <[row := <[col := {| index := tileIndex; tint := tint t;
                                          collides := false |}]> cells]> (data l) |}
      | None => l
      end
  | None => l
  end.

(** The tile at [data[row][col]], if the cell exists. *)
Definition getTileAt (col row : nat) (l : TilemapLayer) : option Tile :=
  match data l !! row with
  | Some cells => cells !! col
  | None => None
  end.

(** A [Phaser.Time.TimerEvent] of the scene clock, as made by
    [scene.time.delayedCall(delay, callback)]: it fires once, when the
    time elapsed since its creation reaches [delay]. *)
Record TimerEvent := mkTimer { elapsed : N; delay : N }.

Definition Clock := list TimerEvent.

Definition delayedCall (d : N) (clk : Clock) : Clock :=
  clk ++ [{| elapsed := 0%N; delay := d |}].

Definition advance (delta : N) (ev : TimerEvent) : TimerEvent :=
  {| elapsed := (elapsed ev + delta)%N; delay := delay ev |}.

Definition due (ev : TimerEvent) : bool := (delay ev <=? elapsed ev)%N.

End Phaser.

(** ** systems/DimensionManager.ts *)

Module DimensionManager.
Import Phaser.

(** The fields of the class.  [time] is the clock reached through
    [this.scene.time]; the only events the manager puts on it are the
    ones that release the lock ([isShifting = false]).  The field
    [onShiftCallback] is written once, by [init], and is carried as a
    parameter of [shift]. *)
Record t := mk {
  current : DimensionType;
  luminaLayer : TilemapLayer;
  umbraLayer : TilemapLayer;
  isShifting : bool;
  time : Clock
}.

(** The dimension that is not [d]. *)
Definition other (d : DimensionType) : DimensionType :=
  match d with LUMINA => UMBRA | UMBRA => LUMINA end.

(** [applyDimensionState()]. *)
Definition applyDimensionState (m : t) : t :=
  let isLumina := bool_decide (current m = LUMINA) in
  let activeLayer := if isLumina then luminaLayer m else umbraLayer m in
  let inactiveLayer := if isLumina then umbraLayer m else luminaLayer m in
  let inactiveTint := if isLumina then UMBRA_TINT else LUMINA_TINT in
  (* active layer: solid, collidable *)
  let activeLayer := setAlpha 1%Q activeLayer in
  let activeLayer := forEachTile (setTileTint 0xffffff) activeLayer in
  let activeLayer := setCollisionByExclusion [0; -1] activeLayer in
  let activeLayer := setDepth 1 activeLayer in
  (* inactive layer: ghostly, non-collidable *)
  let inactiveLayer := setAlpha GHOST_ALPHA inactiveLayer in
  let inactiveLayer := forEachTile (setTileTint inactiveTint) inactiveLayer in
  let inactiveLayer := forEachTile (setCollision false) inactiveLayer in
  let inactiveLayer := setDepth 0 inactiveLayer in
  {| current := current m;
     luminaLayer := if isLumina then activeLayer else inactiveLayer;
     umbraLayer := if isLumina then inactiveLayer else activeLayer;
     isShifting := isShifting m;
     time := time m |}.

(** [new DimensionManager(scene)] followed by
    [init(luminaLayer, umbraLayer, onShiftCallback)]: the field
    initialisers ([current = LUMINA], [isShifting = false]), the two
    layers, then the initial [applyDimensionState()].  The two layer
    fields hold nothing between the constructor and [init]; the scene
    calls [init] right after [new], on a scene whose clock holds no event
    of the manager yet. *)
Definition init (luminaLayer umbraLayer : TilemapLayer) : t :=
  applyDimensionState
    {| current := LUMINA;
       luminaLayer := luminaLayer;
       umbraLayer := umbraLayer;
       isShifting := false;
       time := [] |}.

Definition getCurrent (m : t) : DimensionType := current m.

Definition getActiveLayer (m : t) : TilemapLayer :=
  if bool_decide (current m = LUMINA) then luminaLayer m else umbraLayer m.

Definition getInactiveLayer (m : t) : TilemapLayer :=
  if bool_decide (current m = LUMINA) then umbraLayer m else luminaLayer m.

Definition getIsShifting (m : t) : bool := isShifting m.

(** [this.isShifting = true]. *)
Definition lock (m : t) : t :=
  {| current := current m; luminaLayer := luminaLayer m;
     umbraLayer := umbraLayer m; isShifting := true; time := time m |}.

(** [this.current = this.current === LUMINA ? UMBRA : LUMINA]. *)
Definition flip (m : t) : t :=
  {| current := if bool_decide (current m = LUMINA) then UMBRA else LUMINA;
     luminaLayer := luminaLayer m; umbraLayer := umbraLayer m;
     isShifting := isShifting m; time := time m |}.

(** [this.scene.time.delayedCall(SHIFT_DURATION_MS, ...)]. *)
Definition scheduleUnlock (m : t) : t :=
  {| current := current m; luminaLayer := luminaLayer m;
     umbraLayer := umbraLayer m; isShifting := isShifting m;
     time := delayedCall SHIFT_DURATION_MS (time m) |}.

Section Shift.
(** [Obs] is the state of whoever registered the callback.  The callback
    is handed the manager as it is at the moment of the call and changes
    its own state only: the one the scene registers reads the manager
    through its getters and never writes to it. *)
Context {Obs : Type}.
Variable onShiftCallback : option (t -> Obs -> Obs).

(** [shift()]. *)
Definition shift (w : t * Obs) : t * Obs :=
  let (m, o) := w in
  if isShifting m then w
  else
    let m := lock m in
    let m := flip m in
    let m := applyDimensionState m in
    let o := match onShiftCallback with
             | Some cb => cb m o
             | None => o
             end in
    let m := scheduleUnlock m in
    (m, o).
End Shift.

(** One update of the scene clock by [delta] milliseconds: every pending
    event ages by [delta]; the due ones run their callback
    ([isShifting = false]) and leave the clock. *)
Definition update (delta : N) (m : t) : t :=
  let evs := advance delta <$> time m in
  {| current := current m; luminaLayer := luminaLayer m;
     umbraLayer := umbraLayer m;
     isShifting := foldl (fun b ev => if due ev then false else b) (isShifting m) evs;
     time := List.filter (fun ev => negb (due ev)) evs |}.

(** What happens to the manager during play: the scene clock is updated
    by the frame's [delta], or the player's input calls [shift()]. *)
Inductive Event := Tick (delta : N) | Press.

Section Run.
Context {Obs : Type}.
Variable onShiftCallback : option (t -> Obs -> Obs).

Definition step (w : t * Obs) (ev : Event) : t * Obs :=
  match ev with
  | Tick delta => (update delta w.1, w.2)
  | Press => shift onShiftCallback w
  end.

Definition run (evs : list Event) (w : t * Obs) : t * Obs :=
  foldl step w evs.
End Run.

End DimensionManager.

(** ** entities/Enemy.ts, entities/enemies/PatrolEnemy.ts, ChaseEnemy.ts *)

Module Enemy.

(** The fields of [Enemy] that a shift reads or writes, with the three
    properties of the underlying Arcade sprite it sets: alpha, tint and
    [body.enable].  The per-frame [updateAI] of the two subclasses reads
    [isActive] and writes the velocity, the flip and, for a chasing
    [ChaseEnemy], the alpha; it writes neither [isActive] nor
    [body.enable] and is left out. *)
Record t := mk {
  dimension : DimensionType;
  damage : Z;
  isActive : bool;
  moveSpeed : Z;
  alpha : Q;
  tint : Z;
  bodyEnable : bool
}.

(** The constructor: the field initialisers, and a fresh sprite (opaque,
    untinted) whose body [scene.physics.add.existing] has enabled. *)
Definition new (dimension : DimensionType) : t :=
  {| dimension := dimension; damage := 1; isActive := true; moveSpeed := 60;
     alpha := 1%Q; tint := Phaser.NO_TINT; bodyEnable := true |}.

Definition setMoveSpeed (v : Z) (e : t) : t :=
  {| dimension := dimension e; damage := damage e; isActive := isActive e;
     moveSpeed := v; alpha := alpha e; tint := tint e; bodyEnable := bodyEnable e |}.

(** [new PatrolEnemy(..)]: Lumina-locked. *)
Definition PatrolEnemy : t := setMoveSpeed 50 (new LUMINA).

(** [new ChaseEnemy(..)]: Umbra-locked. *)
Definition ChaseEnemy : t := setMoveSpeed 70 (new UMBRA).

(** [onDimensionShift(currentDimension)].  [clearTint()] puts the sprite
    tint back to white. *)
Definition onDimensionShift (currentDimension : DimensionType) (e : t) : t :=
  let isActive := bool_decide (currentDimension = dimension e) in
  if isActive then
    {| dimension := dimension e; damage := damage e; isActive := isActive;
       moveSpeed := moveSpeed e;
       alpha := 1%Q; tint := Phaser.NO_TINT; bodyEnable := true |}
  else
    let tint := if bool_decide (dimension e = LUMINA)
                then LUMINA_TINT else UMBRA_TINT in
    {| dimension := dimension e; damage := damage e; isActive := isActive;
       moveSpeed := moveSpeed e;
       alpha := GHOST_ALPHA; tint := tint; bodyEnable := false |}.

Definition canDamage (e : t) : bool := isActive e.
Definition getDamage (e : t) : Z := damage e.
Definition getDimension (e : t) : DimensionType := dimension e.

End Enemy.

(** ** scenes/GameScene.ts *)

Module GameScene.
Import Phaser.

(** [WORLD.TILES_X] and [WORLD.TILES_Y] of utils/Constants.ts. *)
Definition TILES_X : nat := 30.
Definition TILES_Y : nat := 20.

(** [spawn.type === 'patrol'] makes a [PatrolEnemy], anything else a
    [ChaseEnemy]. *)
Inductive SpawnType := patrol | chase.

(** Modelled from the spec: levels/LevelData.ts, which declares
    [LevelDefinition], is not among the sources.  A level supplies two
    integer grids, one per dimension (0 = empty, positive = occupied),
    and optionally a list of enemy spawns; these are the fields
    [GameScene] reads for the tile layers and the enemies. *)
Record LevelDefinition := mkLevel {
  lumina : list (list Z);
  umbra : list (list Z);
  enemies : option (list SpawnType)
}.

(** The calls the scene makes on its cosmetic collaborators and on the
    player when the dimension shifts or an enemy is touched, in the
    order they are made. *)
Inductive Effect :=
| PlayShiftEffect (isLumina : bool)
| EmitShiftBurst (dim : DimensionType)
| PlayShift (isLumina : bool)
| CrossfadeAmbient (dim : DimensionType)
| CrossfadeBGM (dim : DimensionType)
| ParallaxShift (dim : DimensionType)
| CreateAmbientEmitter (dim : DimensionType)
| TakeDamage (amount : Z)
| PlayDamageEffect
| PlayDamage.

(** The scene fields the shift touches.  [activeCollider] is the
    collider between the player and one of the two layers; it is
    recorded by the dimension of the layer it is bound to. *)
Record t := mk {
  enemyList : list Enemy.t;
  activeCollider : option DimensionType;
  effects : list Effect
}.

(** The inner loop of [createTilemap()]: the cells of one row, from
    column [col] on. *)
Fixpoint fillCols (cells : list Z) (col row : nat) (l : TilemapLayer)
  : TilemapLayer :=
  match cells with
  | [] => l
  | tileIndex :: rest =>
      fillCols rest (S col) row
        (if 0 <? tileIndex then putTileAt tileIndex col row l else l)
  end.

(** The outer loop: the rows of the grid, from row [row] on. *)
Fixpoint fillRows (rows : list (list Z)) (row : nat) (l : TilemapLayer)
  : TilemapLayer :=
  match rows with
  | [] => l
  | cells :: rest => fillRows rest (S row) (fillCols cells 0 row l)
  end.

(** [createTilemap()], for one of the two grids. The tilesets are the
    textures generated at boot, so the two layers are created. *)
Definition createLayer (grid : list (list Z)) : TilemapLayer :=
  fillRows grid 0 (createBlankLayer TILES_X TILES_Y).

(** [rebuildCollider()]. *)
Definition rebuildCollider (m : DimensionManager.t) (s : t) : t :=
  {| enemyList := enemyList s;
     activeCollider :=
       Some (if bool_decide (DimensionManager.current m = LUMINA) then LUMINA else UMBRA);
     effects := effects s |}.

Definition emit (fx : list Effect) (s : t) : t :=
  {| enemyList := enemyList s; activeCollider := activeCollider s;
     effects := effects s ++ fx |}.

Definition forEachEnemy (f : Enemy.t -> Enemy.t) (s : t) : t :=
  {| enemyList := f <$> enemyList s; activeCollider := activeCollider s;
     effects := effects s |}.

(** [onDimensionShift()], the callback given to [DimensionManager.init].
    [rebuildEnemyCollider()] re-registers the same overlap handler over
    the same enemy array, which leaves nothing to record. *)
Definition onDimensionShift (m : DimensionManager.t) (s : t) : t :=
  let s := rebuildCollider m s in
  let dim := DimensionManager.getCurrent m in
  let isLumina := bool_decide (dim = LUMINA) in
  let s := emit [PlayShiftEffect isLumina; EmitShiftBurst dim;
                 PlayShift isLumina; CrossfadeAmbient dim; CrossfadeBGM dim;
                 ParallaxShift dim; CreateAmbientEmitter dim] s in
  forEachEnemy (Enemy.onDimensionShift dim) s.

(** [spawnEnemies()]. *)
Definition spawnEnemies (level : LevelDefinition) (m : DimensionManager.t) (s : t) : t :=
  match enemies level with
  | None => s
  | Some spawns =>
      let spawned :=
        (fun spawn => match spawn with
                      | patrol => Enemy.PatrolEnemy
                      | chase => Enemy.ChaseEnemy
                      end) <$> spawns in
      let s := {| enemyList := enemyList s ++ spawned;
                  activeCollider := activeCollider s; effects := effects s |} in
      let dim := DimensionManager.getCurrent m in
      forEachEnemy (Enemy.onDimensionShift dim) s
  end.

(** [create()], as far as the dimension core goes: the two layers, the
    manager and its [init], the player collider, the enemies. *)
Definition create (level : LevelDefinition) : DimensionManager.t * t :=
  let luminaLayer := createLayer (lumina level) in
  let umbraLayer := createLayer (umbra level) in
  let m := DimensionManager.init luminaLayer umbraLayer in
  let s := {| enemyList := []; activeCollider := None; effects := [] |} in
  let s := rebuildCollider m s in
  let s := spawnEnemies level m s in
  (m, s).

(** The overlap handler registered by [rebuildEnemyCollider()]. *)
Definition overlapHandler (enemy : Enemy.t) : list Effect :=
  if Enemy.canDamage enemy
  then [TakeDamage (Enemy.getDamage enemy); PlayDamageEffect; PlayDamage]
  else [].

(** An overlap of the player with [enemy] as Arcade physics processes
    it: a body that is not enabled takes part in no overlap, so the
    handler is not called for it. *)
Definition overlap (enemy : Enemy.t) : list Effect :=
  if Enemy.bodyEnable enemy then overlapHandler enemy else [].

(** A play session on [level]. *)
Definition play (level : LevelDefinition) (evs : list DimensionManager.Event)
  : DimensionManager.t * t :=
  DimensionManager.run (Some onDimensionShift) evs (create level).

End GameScene.

(** ** systems/TouchControls.ts *)

Module TouchControls.

(** [TouchInputState], what [getState()] hands to the player. *)
Record TouchInputState := mkInput {
  leftDown : bool;
  rightDown : bool;
  jumpJustPressed : bool;
  shiftJustPressed : bool
}.

(** The fields of the class.  The four buttons are Phaser containers;
    they exist exactly when [isTouchDevice] is set, and their drawing
    (background and label redrawn on every pointer event) is left out. *)
Record t := mk {
  isTouchDevice : bool;
  _leftDown : bool;
  _rightDown : bool;
  _jumpJustPressed : bool;
  _shiftJustPressed : bool
}.

(** The constructor; [touch] is what [detectTouch()] finds in the
    browser. *)
Definition new (touch : bool) : t :=
  {| isTouchDevice := touch; _leftDown := false; _rightDown := false;
     _jumpJustPressed := false; _shiftJustPressed := false |}.

Inductive Button := btnLeft | btnRight | btnJump | btnShift.

#[global] Instance Button_eq_dec : EqDecision Button.
Proof. solve_decision. Defined.

(** The three pointer events [createButton()] listens to. *)
Inductive PointerEvent := pointerdown | pointerup | pointerout.

(** The [onDown] callback [createButtons()] gives each button. *)
Definition onDown (b : Button) (s : t) : t :=
  match b with
  | btnLeft =>
      {| isTouchDevice := isTouchDevice s; _leftDown := true;
         _rightDown := _rightDown s; _jumpJustPressed := _jumpJustPressed s;
         _shiftJustPressed := _shiftJustPressed s |}
  | btnRight =>
      {| isTouchDevice := isTouchDevice s; _leftDown := _leftDown s;
         _rightDown := true; _jumpJustPressed := _jumpJustPressed s;
         _shiftJustPressed := _shiftJustPressed s |}
  | btnJump =>
      {| isTouchDevice := isTouchDevice s; _leftDown := _leftDown s;
         _rightDown := _rightDown s; _jumpJustPressed := true;
         _shiftJustPressed := _shiftJustPressed s |}
  | btnShift =>
      {| isTouchDevice := isTouchDevice s; _leftDown := _leftDown s;
         _rightDown := _rightDown s; _jumpJustPressed := _jumpJustPressed s;
         _shiftJustPressed := true |}
  end.

(** The [onUp] callback of each button: the two action buttons have an
    empty one. *)
Definition onUp (b : Button) (s : t) : t :=
  match b with
  | btnLeft =>
      {| isTouchDevice := isTouchDevice s; _leftDown := false;
         _rightDown := _rightDown s; _jumpJustPressed := _jumpJustPressed s;
         _shiftJustPressed := _shiftJustPressed s |}
  | btnRight =>
      {| isTouchDevice := isTouchDevice s; _leftDown := _leftDown s;
         _rightDown := false; _jumpJustPressed := _jumpJustPressed s;
         _shiftJustPressed := _shiftJustPressed s |}
  | btnJump => s
  | btnShift => s
  end.

(** A pointer event arriving at button [b]: the listeners registered by
    [createButton()].  Without touch the constructor creates no button,
    so there is nothing for the event to arrive at. *)
Definition dispatch (s : t) (ev : Button * PointerEvent) : t :=
  if isTouchDevice s then
    match ev.2 with
    | pointerdown => onDown ev.1 s
    | pointerup => onUp ev.1 s
    | pointerout => onUp ev.1 s
    end
  else s.

(** [getState()]: the state read, and the controls with the two "just
    pressed" flags reset. *)
Definition getState (s : t) : TouchInputState * t :=
  ({| leftDown := _leftDown s; rightDown := _rightDown s;
      jumpJustPressed := _jumpJustPressed s;
      shiftJustPressed := _shiftJustPressed s |},
   {| isTouchDevice := isTouchDevice s; _leftDown := _leftDown s;
      _rightDown := _rightDown s; _jumpJustPressed := false;
      _shiftJustPressed := false |}).

Definition isActive (s : t) : bool := isTouchDevice s.

(** What happens to the controls: a pointer event on a button, or the
    player reading the state in its frame update. *)
Inductive Event := Pointer (b : Button) (p : PointerEvent) | Read.

(** A session: the controls at the end, and what each read returned,
    latest first. *)
Definition step (w : t * list TouchInputState) (ev : Event)
  : t * list TouchInputState :=
  match ev with
  | Pointer b p => (dispatch w.1 (b, p), w.2)
  | Read => ((getState w.1).2, (getState w.1).1 :: w.2)
  end.

Definition run (evs : list Event) (w : t * list TouchInputState)
  : t * list TouchInputState :=
  foldl step w evs.

End TouchControls.

(** ** The per-frame AI of entities/enemies/PatrolEnemy.ts *)

Module PatrolEnemy.

(** The inherited fields ([base]), the fields of the class, and what the
    AI reads and writes of the sprite and its Arcade body: the sprite's
    [x] and [flipX], the body's horizontal velocity and its
    [blocked.left] / [blocked.right] flags.  Positions and ranges are
    JavaScript numbers; the AI only subtracts, compares and takes absolute
    values of them, and they are modelled as rationals.  Speeds and
    directions are integers. *)
Record t := mk {
  base : Enemy.t;
  patrolDir : Z;
  patrolRange : Q;
  startX : Q;
  x : Q;
  flipX : bool;
  velocityX : Z;
  blockedLeft : bool;
  blockedRight : bool
}.

(** [new PatrolEnemy(scene, x, y, patrolRange)]. *)
Definition new (x patrolRange : Q) : t :=
  {| base := Enemy.PatrolEnemy; patrolDir := 1; patrolRange := patrolRange;
     startX := x; x := x; flipX := false; velocityX := 0;
     blockedLeft := false; blockedRight := false |}.

Definition setVelocityX (v : Z) (e : t) : t :=
  {| base := base e; patrolDir := patrolDir e; patrolRange := patrolRange e;
     startX := startX e; x := x e; flipX := flipX e; velocityX := v;
     blockedLeft := blockedLeft e; blockedRight := blockedRight e |}.

Definition setPatrolDir (d : Z) (e : t) : t :=
  {| base := base e; patrolDir := d; patrolRange := patrolRange e;
     startX := startX e; x := x e; flipX := flipX e; velocityX := velocityX e;
     blockedLeft := blockedLeft e; blockedRight := blockedRight e |}.

Definition setFlipX (f : bool) (e : t) : t :=
  {| base := base e; patrolDir := patrolDir e; patrolRange := patrolRange e;
     startX := startX e; x := x e; flipX := f; velocityX := velocityX e;
     blockedLeft := blockedLeft e; blockedRight := blockedRight e |}.

(** [a > b] on numbers. *)
Definition gt (a b : Q) : bool := negb (Qle_bool a b).

(** [updateAI(_playerX, _playerY, _delta)]. *)
Definition updateAI (e : t) : t :=
  if negb (Enemy.isActive (base e)) then
    (* ghosted: stop moving *)
    setVelocityX 0 e
  else
    let e := setVelocityX (Enemy.moveSpeed (base e) * patrolDir e) e in
    let e := if blockedLeft e || blockedRight e
             then setPatrolDir (patrolDir e * -1) e else e in
    let e := if gt (Qabs (x e - startX e)) (patrolRange e)
             then setPatrolDir (if gt (x e) (startX e) then -1 else 1) e
             else e in
    setFlipX (patrolDir e <? 0) e.

(** The inherited [onDimensionShift(currentDimension)]. *)
Definition onDimensionShift (d : DimensionType) (e : t) : t :=
  {| base := Enemy.onDimensionShift d (base e); patrolDir := patrolDir e;
     patrolRange := patrolRange e; startX := startX e; x := x e;
     flipX := flipX e; velocityX := velocityX e;
     blockedLeft := blockedLeft e; blockedRight := blockedRight e |}.

(** A physics step: the engine moves the sprite and sets the blocked
    flags; any outcome is allowed for. *)
Definition moved (x' : Q) (onLeft onRight : bool) (e : t) : t :=
  {| base := base e; patrolDir := patrolDir e; patrolRange := patrolRange e;
     startX := startX e; x := x'; flipX := flipX e; velocityX := velocityX e;
     blockedLeft := onLeft; blockedRight := onRight |}.

Inductive Event :=
| Shift (d : DimensionType)
| Physics (x' : Q) (onLeft onRight : bool)
| Update.

Definition step (e : t) (ev : Event) : t :=
  match ev with
  | Shift d => onDimensionShift d e
  | Physics x' onLeft onRight => moved x' onLeft onRight e
  | Update => updateAI e
  end.

Definition run (evs : list Event) (e : t) : t := foldl step e evs.

End PatrolEnemy.

(** ** The per-frame AI of entities/enemies/ChaseEnemy.ts *)

Module ChaseEnemy.

(** The inherited fields ([base]), the fields of the class, and the
    sprite's [x] and [flipX] and the body's horizontal velocity.  Numbers
    as in [PatrolEnemy]. *)
Record t := mk {
  base : Enemy.t;
  detectionRange : Q;
  isChasing : bool;
  x : Q;
  flipX : bool;
  velocityX : Z
}.

(** [new ChaseEnemy(scene, x, y, detectionRange)]. *)
Definition new (x detectionRange : Q) : t :=
  {| base := Enemy.ChaseEnemy; detectionRange := detectionRange;
     isChasing := false; x := x; flipX := false; velocityX := 0 |}.

Definition setAlpha (a : Q) (b : Enemy.t) : Enemy.t :=
  {| Enemy.dimension := Enemy.dimension b; Enemy.damage := Enemy.damage b;
     Enemy.isActive := Enemy.isActive b; Enemy.moveSpeed := Enemy.moveSpeed b;
     Enemy.alpha := a; Enemy.tint := Enemy.tint b;
     Enemy.bodyEnable := Enemy.bodyEnable b |}.

(** [a < b] and [a > b] on numbers. *)
Definition lt (a b : Q) : bool := negb (Qle_bool b a).
Definition gt (a b : Q) : bool := negb (Qle_bool a b).

(** [updateAI(playerX, _playerY, _delta)].  [pulse] is the value of
    [0.8 + Math.sin(Date.now() * 0.01) * 0.2] at the time of the call. *)
Definition updateAI (playerX pulse : Q) (e : t) : t :=
  if negb (Enemy.isActive (base e)) then
    {| base := base e; detectionRange := detectionRange e; isChasing := false;
       x := x e; flipX := flipX e; velocityX := 0 |}
  else
    let distX := (playerX - x e)%Q in
    let distance := Qabs distX in
    (* start chasing if the player is in detection range *)
    let chasing := if lt distance (detectionRange e) then true else isChasing e in
    (* stop chasing if the player is too far *)
    let chasing := if gt distance (detectionRange e * (15 # 10))
                   then false else chasing in
    if chasing then
      let dir := if gt distX 0 then 1 else -1 in
      {| base := setAlpha pulse (base e); detectionRange := detectionRange e;
         isChasing := chasing; x := x e; flipX := dir <? 0;
         velocityX := Enemy.moveSpeed (base e) * dir |}
    else
      {| base := base e; detectionRange := detectionRange e;
         isChasing := chasing; x := x e; flipX := flipX e; velocityX := 0 |}.

(** The inherited [onDimensionShift(currentDimension)]. *)
Definition onDimensionShift (d : DimensionType) (e : t) : t :=
  {| base := Enemy.onDimensionShift d (base e);
     detectionRange := detectionRange e; isChasing := isChasing e;
     x := x e; flipX := flipX e; velocityX := velocityX e |}.

(** A physics step: the engine moves the sprite. *)
Definition moved (x' : Q) (e : t) : t :=
  {| base := base e; detectionRange := detectionRange e;
     isChasing := isChasing e; x := x'; flipX := flipX e;
     velocityX := velocityX e |}.

Inductive Event :=
| Shift (d : DimensionType)
| Physics (x' : Q)
| Update (playerX pulse : Q).

Definition step (e : t) (ev : Event) : t :=
  match ev with
  | Shift d => onDimensionShift d e
  | Physics x' => moved x' e
  | Update playerX pulse => updateAI playerX pulse e
  end.

Definition run (evs : list Event) (e : t) : t := foldl step e evs.

End ChaseEnemy.

(** ** scenes/GameScene.ts: level flow, player particles, health hearts *)

Module LevelFlow.

(** What a pending [delayedCall] of the scene does when it fires. *)
Inductive Action :=
| RestartWith (levelIndex : Z)   (* scene.restart({ levelIndex: nextIndex }) *)
| RestartLevel.                  (* this.restartLevel() *)

(** The scene fields the level flow reads and writes: the level index,
    the completion flag, whether [showVictory()] has registered its ENTER
    handler, and the scene's pending delayed calls. *)
Record t := mk {
  currentLevelIndex : Z;
  levelComplete : bool;
  victoryShown : bool;
  pending : list Action
}.

(** [init(data)], run at every start and restart of the scene;
    [data.levelIndex ?? 0].  A restart shuts the scene down first, which
    drops its pending delayed calls and its key handlers. *)
Definition init (levelIndex : option Z) : t :=
  {| currentLevelIndex := default 0 levelIndex; levelComplete := false;
     victoryShown := false; pending := [] |}.

(** [completeLevel()]; [levels] is [ALL_LEVELS.length]. *)
Definition completeLevel (levels : Z) (s : t) : t :=
  if levelComplete s then s
  else
    let nextIndex := currentLevelIndex s + 1 in
    if nextIndex <? levels then
      {| currentLevelIndex := currentLevelIndex s; levelComplete := true;
         victoryShown := victoryShown s;
         pending := pending s ++ [RestartWith nextIndex] |}
    else
      {| currentLevelIndex := currentLevelIndex s; levelComplete := true;
         victoryShown := true; pending := pending s |}.

(** [restartLevel()]: [scene.restart({ levelIndex: currentLevelIndex })]. *)
Definition restartLevel (s : t) : t := init (Some (currentLevelIndex s)).

(** [handlePlayerDeath()]: the restart is scheduled one second later. *)
Definition handlePlayerDeath (s : t) : t :=
  {| currentLevelIndex := currentLevelIndex s; levelComplete := levelComplete s;
     victoryShown := victoryShown s; pending := pending s ++ [RestartLevel] |}.

(** What happens to the scene: a frame in which the player is at the
    exit portal, the 'player-died' event, the R key, the firing of the
    [k]-th pending delayed call, and ENTER on the victory screen followed
    by the start of a new game from the menu. *)
Inductive Event :=
| AtExit
| PlayerDied
| KeyR
| Fire (k : nat)
| VictoryEnter.

Definition step (levels : Z) (s : t) (ev : Event) : t :=
  match ev with
  | AtExit =>
      (* update() returns at once when the level is complete *)
      if levelComplete s then s else completeLevel levels s
  | PlayerDied => handlePlayerDeath s
  | KeyR => restartLevel s
  | Fire k =>
      match pending s !! k with
      | Some (RestartWith levelIndex) => init (Some levelIndex)
      | Some RestartLevel => restartLevel s
      | None => s
      end
  | VictoryEnter =>
      if victoryShown s then init (Some 0) else s
  end.

Definition run (levels : Z) (evs : list Event) (s : t) : t :=
  foldl (step levels) s evs.

End LevelFlow.

Module PlayerParticles.

(** The two fields [updatePlayerParticles(delta)] keeps between frames.
    Times are JavaScript numbers, modelled as rationals. *)
Record t := mk { wasInAir : bool; jumpParticleTimer : Q }.

Inductive Effect := EmitLandingDust | PlayLand | EmitJumpParticle.

(** [a > b] on numbers. *)
Definition gt (a b : Q) : bool := negb (Qle_bool a b).

(** [updatePlayerParticles(delta)]: the new fields and the calls made.
    [body] is [None] when the player has no physics body, and otherwise
    holds [body.blocked.down]. *)
Definition updatePlayerParticles (body : option bool) (delta : Q) (s : t)
  : t * list Effect :=
  match body with
  | None => (s, [])
  | Some onGround =>
      let landing := if onGround && wasInAir s
                     then [EmitLandingDust; PlayLand] else [] in
      let '(timer, trail) :=
        if negb onGround then
          let timer := (jumpParticleTimer s + delta)%Q in
          if gt timer 80 then (0%Q, [EmitJumpParticle]) else (timer, [])
        else (0%Q, []) in
      ({| wasInAir := negb onGround; jumpParticleTimer := timer |},
       landing ++ trail)
  end.

(** A run of frames, each with the body as found and the frame's delta:
    the fields at the end and all the calls made, in order. *)
Definition run (frames : list (option bool * Q)) (w : t * list Effect)
  : t * list Effect :=
  foldl (fun w frame =>
           let r := updatePlayerParticles frame.1 frame.2 w.1 in
           (r.1, w.2 ++ r.2)) w frames.

End PlayerParticles.

Module Hud.

Definition HEALTH_FULL : Z := 0xff4444.
Definition HEALTH_EMPTY : Z := 0x333333.

(** One heart as [drawHearts()] draws it: the fill colour and the
    arguments of [fillRoundedRect]. *)
Record Heart := mkHeart {
  color : Z;
  rectX : Z;
  rectY : Z;
  rectWidth : Z;
  rectHeight : Z;
  radius : Z
}.

(** [drawHearts()] for [icons] heart icons and the player's [health]. *)
Definition drawHearts (health : Z) (icons : nat) : list Heart :=
  (fun i : nat =>
     let full := Z.of_nat i <? health in
     {| color := if full then HEALTH_FULL else HEALTH_EMPTY;
        rectX := 16 + Z.of_nat i * 22; rectY := 16; rectWidth := 18;
        rectHeight := 18; radius := 4 |})
  <$> seq 0 icons.

End Hud.

(** * Vocabulary of the properties *)

Import Phaser.

Section Vocabulary.
Import DimensionManager.

(** [P] holds of every tile of the layer. *)
Definition all_tiles (P : Tile -> Prop) (l : TilemapLayer) : Prop :=
  Forall (Forall P) (data l).

(** An occupied cell carries a positive tile index. *)
Definition occupied (t : Tile) : Prop := 0 < index t.

(** The two indexes [applyDimensionState] excludes from collision. *)
Definition excluded (t : Tile) : Prop := index t = 0 \/ index t = -1.

(** What [applyDimensionState] does to one tile of the active layer,
    and to one tile of the inactive layer tinted [c]. *)
Definition activeTile (t : Tile) : Tile :=
  let t := setTileTint 0xffffff t in
  if bool_decide (index t ∈ [0; -1]) then t else setCollision true t.

Definition inactiveTile (c : Z) (t : Tile) : Tile :=
  setCollision false (setTileTint c t).

Definition makeActive (l : TilemapLayer) : TilemapLayer :=
  setDepth 1 (forEachTile activeTile (setAlpha 1%Q l)).

Definition makeInactive (c : Z) (l : TilemapLayer) : TilemapLayer :=
  setDepth 0 (forEachTile (inactiveTile c) (setAlpha GHOST_ALPHA l)).

(** Both are one pass over the grid with fixed alpha and depth. *)
Definition retile (a : Q) (d : Z) (f : Tile -> Tile) (l : TilemapLayer)
  : TilemapLayer :=
  setDepth d (forEachTile f (setAlpha a l)).

(** No tile with an excluded index collides. *)
Definition tidy (l : TilemapLayer) : Prop :=
  all_tiles (fun t => excluded t -> collides t = false) l.

(** The tint [applyDimensionState] gives the ghost layer of dimension
    [d]: warm gold for Lumina, cool purple for Umbra. *)
Definition ghostTint (d : DimensionType) : Z :=
  match d with LUMINA => 0xffcc44 | UMBRA => 0x6644cc end.

(** The state of the two layers that [applyDimensionState] establishes
    for the current dimension. *)
Definition diverged (m : t) : Prop :=
  let activeLayer := getActiveLayer m in
  let inactiveLayer := getInactiveLayer m in
  alpha activeLayer = 1%Q /\
  all_tiles (fun t => tint t = 0xffffff) activeLayer /\
  all_tiles (fun t => occupied t -> collides t = true) activeLayer /\
  depth activeLayer = 1 /\
  alpha inactiveLayer = (2 # 10)%Q /\
  all_tiles (fun t => tint t = ghostTint (other (current m))) inactiveLayer /\
  all_tiles (fun t => collides t = false) inactiveLayer /\
  depth inactiveLayer = 0.

(** The manager state at the moment [shift()] calls back, when it
    starts from [m] with the lock free. *)
Definition notified (m : t) : t := applyDimensionState (flip (lock m)).

Definition notify {Obs : Type} (onShiftCallback : option (t -> Obs -> Obs))
  (m : t) (o : Obs) : Obs :=
  match onShiftCallback with
  | Some cb => cb m o
  | None => o
  end.

(** The layers are as [applyDimensionState] leaves them. *)
Definition applied (m : t) : Prop :=
  luminaLayer (applyDimensionState m) = luminaLayer m /\
  umbraLayer (applyDimensionState m) = umbraLayer m.

(** The lock is either open with no unlock event pending, or closed with
    exactly one pending unlock event that is not yet due. *)
Definition latch (m : t) : Prop :=
  (isShifting m = false /\ time m = []) \/
  (isShifting m = true /\
   exists e, (e < SHIFT_DURATION_MS)%N /\ time m = [mkTimer e SHIFT_DURATION_MS]).

Definition stable (m : t) : Prop :=
  tidy (luminaLayer m) /\ tidy (umbraLayer m) /\ applied m /\ latch m.

(** A tile as [createTilemap] leaves it: not colliding, untinted, and
    either empty (index -1) or holding a positive tile index. *)
Definition fresh (t : Tile) : Prop :=
  collides t = false /\ tint t = NO_TINT /\ (index t = -1 \/ 0 < index t).

(** The tile [putTileAt] leaves where [t] was. *)
Definition written (v : Z) (t : Tile) : Tile :=
  {| index := v; tint := tint t; collides := false |}.

(** Every non-empty tile of the layer holds the positive value the
    level grid has at the same row and column. *)
Definition from_grid (grid : list (list Z)) (l : TilemapLayer) : Prop :=
  forall col row t,
    getTileAt col row l = Some t ->
    index t = -1 \/
    (0 < index t /\
     exists cells, grid !! row = Some cells /\ cells !! col = Some (index t)).

(** The manager as [GameScene.create] makes it for a level. *)
Definition start (level : GameScene.LevelDefinition) : t :=
  init (GameScene.createLayer (GameScene.lumina level))
       (GameScene.createLayer (GameScene.umbra level)).

(** The time that passes during a list of events. *)
Definition duration (evs : list Event) : N :=
  foldr (fun ev acc => match ev with Tick delta => delta + acc | Press => acc end)%N
        0%N evs.

Definition total (deltas : list N) : N := foldr N.add 0%N deltas.

(** Both layers still hold the tiles of the level's grids. *)
Definition placed (level : GameScene.LevelDefinition) (m : t) : Prop :=
  from_grid (GameScene.lumina level) (luminaLayer m) /\
  from_grid (GameScene.umbra level) (umbraLayer m).

(** The control part of the manager: the current dimension, the lock
    and the clock.  It evolves on its own, whatever the layers hold and
    whoever listens. *)
Definition control (m : t) : DimensionType * bool * Clock :=
  (current m, isShifting m, time m).

Definition control_step (c : DimensionType * bool * Clock) (ev : Event)
  : DimensionType * bool * Clock :=
  let '(cur, locked, clk) := c in
  match ev with
  | Tick delta =>
      let evs := advance delta <$> clk in
      (cur, foldl (fun b ev => if due ev then false else b) locked evs,
       List.filter (fun ev => negb (due ev)) evs)
  | Press =>
      if locked then c
      else (other cur, true, delayedCall SHIFT_DURATION_MS clk)
  end.

(** The two sides of the collision flags an observer relies on. *)
Definition consistent (m : t) : Prop :=
  all_tiles (fun t => occupied t -> collides t = true) (getActiveLayer m) /\
  all_tiles (fun t => collides t = false) (getInactiveLayer m).

(** [currentActive()] answering for one dimension. *)
Definition reportsActive (d : DimensionType) (m : t) : bool :=
  bool_decide (getCurrent m = d).

(** An enemy agrees with the dimension [d]: it is active, and its body
    enabled, exactly when [d] is its home dimension. *)
Definition in_step (d : DimensionType) (e : Enemy.t) : Prop :=
  Enemy.canDamage e = bool_decide (d = Enemy.dimension e) /\
  Enemy.bodyEnable e = Enemy.canDamage e.

Definition synced (w : t * GameScene.t) : Prop :=
  Forall (in_step (getCurrent w.1)) (GameScene.enemyList w.2).

(** A small level for concrete runs: two rows of two cells per grid,
    one patrol and one chase enemy. *)
Definition demoLevel : GameScene.LevelDefinition :=
  GameScene.mkLevel [[1; 0]; [0; 2]] [[0; 0]; [3; -1]]
                    (Some [GameScene.patrol; GameScene.chase]).

End Vocabulary.

(** * Vocabulary of the scene properties *)

Section SceneVocabulary.
Import DimensionManager.

(** The enemy [spawnEnemies()] creates for one spawn descriptor. *)
Definition spawnEnemy (spawn : GameScene.SpawnType) : Enemy.t :=
  match spawn with
  | GameScene.patrol => Enemy.PatrolEnemy
  | GameScene.chase => Enemy.ChaseEnemy
  end.

(** The enemies of a level as their constructors leave them. *)
Definition spawned (level : GameScene.LevelDefinition) : list Enemy.t :=
  match GameScene.enemies level with
  | None => []
  | Some spawns => spawnEnemy <$> spawns
  end.




(** The manager states a listener that records each call of the
    callback has seen during a session, latest first. *)
Definition recorded (level : GameScene.LevelDefinition) (evs : list Event)
  : list t :=
  (run (Some cons) evs (start level, [])).2.

(** The manager [applyDimensionState] makes of the level's two layers,
    as [createTilemap()] built them, when [d] is current. *)
Definition layersFor (level : GameScene.LevelDefinition) (d : DimensionType) : t :=
  applyDimensionState
    (mk d (GameScene.createLayer (GameScene.lumina level))
        (GameScene.createLayer (GameScene.umbra level)) false []).

(** The value a level grid gives for a cell, if it has one. *)
Definition gridCell (grid : list (list Z)) (col row : nat) : option Z :=
  match grid !! row with
  | Some cells => cells !! col
  | None => None
  end.

(** The two layers are those of [layersFor] for the current dimension. *)
Definition settled (level : GameScene.LevelDefinition) (m : t) : Prop :=
  luminaLayer m = luminaLayer (layersFor level (getCurrent m)) /\
  umbraLayer m = umbraLayer (layersFor level (getCurrent m)).

(** The invariant behind the bound on accepted shifts: [n] shifts were
    accepted during the first [T] milliseconds. *)
Definition paced (n : nat) (T : N) (m : t) : Prop :=
  (isShifting m = false /\ time m = [] /\
   (SHIFT_DURATION_MS * N.of_nat n <= T)%N) \/
  (isShifting m = true /\
   exists e k, n = S k /\ (e < SHIFT_DURATION_MS)%N /\
               time m = [mkTimer e SHIFT_DURATION_MS] /\
               (SHIFT_DURATION_MS * N.of_nat k + e <= T)%N).

End SceneVocabulary.

(** * Vocabulary of the input and enemy properties *)

Section InputVocabulary.

#[global] Instance PointerEvent_eq_dec : EqDecision TouchControls.PointerEvent.
Proof. solve_decision. Defined.

(** The controls after a list of pointer events. *)
Definition pointers (ptrs : list (TouchControls.Button * TouchControls.PointerEvent))
  (s : TouchControls.t) : TouchControls.t :=
  foldl TouchControls.dispatch s ptrs.

(** Button [b] went down at least once during [ptrs]. *)
Definition pressedIn (b : TouchControls.Button)
  (ptrs : list (TouchControls.Button * TouchControls.PointerEvent)) : bool :=
  existsb (fun ev => bool_decide (ev = (b, TouchControls.pointerdown))) ptrs.

(** Whether button [b] is held after [ptrs], having been held or not
    ([init]) before: the last event on [b] decides, a pointerdown holds
    it, a pointerup or pointerout releases it. *)
Definition heldAfter (b : TouchControls.Button)
  (ptrs : list (TouchControls.Button * TouchControls.PointerEvent))
  (init : bool) : bool :=
  foldl (fun held ev =>
           if bool_decide (ev.1 = b)
           then bool_decide (ev.2 = TouchControls.pointerdown)
           else held) init ptrs.

(** The read of idle controls. *)
Definition noInput : TouchControls.TouchInputState :=
  TouchControls.mkInput false false false false.

End InputVocabulary.

(** * Vocabulary of the frame properties *)

Section FrameVocabulary.

(** The air time of a run of frames: the deltas of the frames in which
    the player has a body and is off the ground. *)
Definition airTime (frames : list (option bool * Q)) : Q :=
  foldr (fun frame acc =>
           match frame.1 with
           | Some false => (frame.2 + acc)%Q
           | _ => acc
           end) 0%Q frames.

(** How often a call occurs in a list of calls. *)
Definition countEffect (fx : PlayerParticles.Effect)
  (l : list PlayerParticles.Effect) : nat :=
  length (List.filter
            (fun x => match fx, x with
                      | PlayerParticles.EmitLandingDust, PlayerParticles.EmitLandingDust
                      | PlayerParticles.PlayLand, PlayerParticles.PlayLand
                      | PlayerParticles.EmitJumpParticle, PlayerParticles.EmitJumpParticle => true
                      | _, _ => false
                      end) l).

(** The jump particles emitted among the calls, as a number. *)
Definition trails (fx : list PlayerParticles.Effect) : Q :=
  inject_Z (Z.of_nat (countEffect PlayerParticles.EmitJumpParticle fx)).

(** The red hearts of a drawing. *)
Definition fullHearts (hearts : list Hud.Heart) : nat :=
  length (List.filter (fun h => Hud.color h =? Hud.HEALTH_FULL) hearts).

(** What every state of the level flow satisfies, for [levels] levels. *)
Definition inRange (levels : Z) (s : LevelFlow.t) : Prop :=
  0 <= LevelFlow.currentLevelIndex s < levels /\
  (forall i, LevelFlow.RestartWith i ∈ LevelFlow.pending s ->
             i = LevelFlow.currentLevelIndex s + 1 /\ i < levels /\
             LevelFlow.levelComplete s = true) /\
  (LevelFlow.victoryShown s = true ->
   LevelFlow.levelComplete s = true /\
   LevelFlow.currentLevelIndex s = levels - 1).

End FrameVocabulary.

(** * Properties *)

(** ** Tile layers *)

Section Layers.

Lemma excluded_spec t : index t ∈ [0; -1] <-> excluded t.
Proof.
  unfold excluded. rewrite !elem_of_cons, elem_of_nil. tauto.
Qed.

Lemma all_tiles_forEachTile (P Q : Tile -> Prop) f l :
  (forall t, P t -> Q (f t)) -> all_tiles P l -> all_tiles Q (forEachTile f l).
Proof.
  unfold all_tiles, forEachTile; simpl. intros HPQ Hall.
  apply Forall_fmap. eapply Forall_impl; [exact Hall|].
  intros cells Hcells. apply Forall_fmap.
  eapply Forall_impl; [exact Hcells|]. intros t Ht. simpl. auto.
Qed.

Lemma all_tiles_True l : all_tiles (fun _ => True) l.
Proof.
  unfold all_tiles. apply Forall_forall. intros cells _.
  apply Forall_forall. auto.
Qed.

Lemma all_tiles_impl (P Q : Tile -> Prop) l :
  (forall t, P t -> Q t) -> all_tiles P l -> all_tiles Q l.
Proof.
  intros HPQ. unfold all_tiles. intros Hall.
  eapply Forall_impl; [exact Hall|]. intros cells Hcells.
  eapply Forall_impl; [exact Hcells|]. exact HPQ.
Qed.

Lemma all_tiles_getTileAt (P : Tile -> Prop) l col row t :
  all_tiles P l -> getTileAt col row l = Some t -> P t.
Proof.
  unfold all_tiles, getTileAt. intros Hall Hget.
  destruct (data l !! row) as [cells|] eqn:Hrow; [|discriminate].
  eapply Forall_lookup_1 in Hall; [|exact Hrow].
  eapply Forall_lookup_1 in Hall; [|exact Hget]. exact Hall.
Qed.

Lemma forEachTile_forEachTile f g l :
  forEachTile g (forEachTile f l) = forEachTile (fun t => g (f t)) l.
Proof.
  unfold forEachTile; simpl. f_equal.
  rewrite <- list_fmap_compose. apply list_fmap_ext.
  intros i cells _. simpl. rewrite <- list_fmap_compose. reflexivity.
Qed.

Lemma forEachTile_ext_in f g l :
  all_tiles (fun t => f t = g t) l -> forEachTile f l = forEachTile g l.
Proof.
  unfold all_tiles, forEachTile. intros Hall. f_equal.
  apply Forall_fmap_ext_1. eapply Forall_impl; [exact Hall|].
  intros cells Hcells. apply Forall_fmap_ext_1. exact Hcells.
Qed.

Lemma applyDimensionState_LUMINA m :
  DimensionManager.current m = LUMINA ->
  DimensionManager.applyDimensionState m =
  DimensionManager.mk LUMINA
    (makeActive (DimensionManager.luminaLayer m))
    (makeInactive UMBRA_TINT (DimensionManager.umbraLayer m))
    (DimensionManager.isShifting m) (DimensionManager.time m).
Proof.
  intros Hc. unfold DimensionManager.applyDimensionState. rewrite Hc. simpl.
  unfold makeActive, makeInactive, setCollisionByExclusion.
  rewrite !forEachTile_forEachTile. reflexivity.
Qed.

Lemma applyDimensionState_UMBRA m :
  DimensionManager.current m = UMBRA ->
  DimensionManager.applyDimensionState m =
  DimensionManager.mk UMBRA
    (makeInactive LUMINA_TINT (DimensionManager.luminaLayer m))
    (makeActive (DimensionManager.umbraLayer m))
    (DimensionManager.isShifting m) (DimensionManager.time m).
Proof.
  intros Hc. unfold DimensionManager.applyDimensionState. rewrite Hc. simpl.
  unfold makeActive, makeInactive, setCollisionByExclusion.
  rewrite !forEachTile_forEachTile. reflexivity.
Qed.

Lemma activeTile_idem t : activeTile (activeTile t) = activeTile t.
Proof.
  unfold activeTile. simpl.
  destruct (bool_decide (index t ∈ [0; -1])) eqn:He; simpl; rewrite He; reflexivity.
Qed.

Lemma inactiveTile_idem c t : inactiveTile c (inactiveTile c t) = inactiveTile c t.
Proof. reflexivity. Qed.

Lemma inactive_after_active c t : inactiveTile c (activeTile t) = inactiveTile c t.
Proof.
  unfold activeTile, inactiveTile. simpl.
  destruct (bool_decide (index t ∈ [0; -1])); reflexivity.
Qed.

Lemma active_after_inactive c t :
  (excluded t -> collides t = false) ->
  activeTile (inactiveTile c t) = activeTile t.
Proof.
  unfold activeTile, inactiveTile. simpl. intros Hex.
  destruct (bool_decide (index t ∈ [0; -1])) eqn:He; [|reflexivity].
  apply bool_decide_eq_true in He. apply excluded_spec in He.
  unfold setTileTint, setCollision; simpl. rewrite (Hex He). reflexivity.
Qed.

Lemma retile_retile a d f a' d' g l :
  retile a' d' g (retile a d f l) = retile a' d' (fun t => g (f t)) l.
Proof.
  unfold retile, setDepth, setAlpha; simpl. f_equal.
  pose proof (forEachTile_forEachTile f g l) as H.
  apply (f_equal data) in H. exact H.
Qed.

Lemma retile_ext_in a d f g l :
  all_tiles (fun t => f t = g t) l -> retile a d f l = retile a d g l.
Proof.
  intros Hall. unfold retile, setDepth, setAlpha; simpl. f_equal.
  apply (f_equal data (forEachTile_ext_in f g l Hall)).
Qed.

Lemma retile_ext a d f g l :
  (forall t, f t = g t) -> retile a d f l = retile a d g l.
Proof.
  intros Hfg. apply retile_ext_in.
  eapply all_tiles_impl; [|apply all_tiles_True]. intros t _. apply Hfg.
Qed.

Lemma all_tiles_retile (P Q : Tile -> Prop) a d f l :
  (forall t, P t -> Q (f t)) -> all_tiles P l -> all_tiles Q (retile a d f l).
Proof.
  intros HPQ Hall.
  exact (all_tiles_forEachTile P Q f (setAlpha a l) HPQ Hall).
Qed.

Lemma makeActive_idem l : makeActive (makeActive l) = makeActive l.
Proof.
  change (retile 1%Q 1 activeTile (retile 1%Q 1 activeTile l)
          = retile 1%Q 1 activeTile l).
  rewrite retile_retile. apply retile_ext. apply activeTile_idem.
Qed.

Lemma makeInactive_idem c l : makeInactive c (makeInactive c l) = makeInactive c l.
Proof.
  change (retile GHOST_ALPHA 0 (inactiveTile c) (retile GHOST_ALPHA 0 (inactiveTile c) l)
          = retile GHOST_ALPHA 0 (inactiveTile c) l).
  rewrite retile_retile. apply retile_ext. intros t. apply inactiveTile_idem.
Qed.

Lemma makeInactive_makeActive c l : makeInactive c (makeActive l) = makeInactive c l.
Proof.
  change (retile GHOST_ALPHA 0 (inactiveTile c) (retile 1%Q 1 activeTile l)
          = retile GHOST_ALPHA 0 (inactiveTile c) l).
  rewrite retile_retile. apply retile_ext. intros t. apply inactive_after_active.
Qed.

Lemma makeActive_makeInactive c l :
  tidy l -> makeActive (makeInactive c l) = makeActive l.
Proof.
  intros Htidy.
  change (retile 1%Q 1 activeTile (retile GHOST_ALPHA 0 (inactiveTile c) l)
          = retile 1%Q 1 activeTile l).
  rewrite retile_retile. apply retile_ext_in.
  eapply all_tiles_impl; [|exact Htidy].
  intros t Ht. apply active_after_inactive. exact Ht.
Qed.

Lemma tidy_makeActive l : tidy l -> tidy (makeActive l).
Proof.
  apply all_tiles_retile. intros t Ht. unfold activeTile, excluded; simpl.
  destruct (bool_decide (index t ∈ [0; -1])) eqn:He; simpl; intros Hex.
  - apply Ht. exact Hex.
  - apply bool_decide_eq_false in He. exfalso. apply He.
    apply excluded_spec. exact Hex.
Qed.

Lemma still_makeInactive c l : all_tiles (fun t => collides t = false) (makeInactive c l).
Proof.
  apply (all_tiles_retile (fun _ => True)); [|apply all_tiles_True].
  intros t _. reflexivity.
Qed.

Lemma tidy_makeInactive c l : tidy (makeInactive c l).
Proof.
  eapply all_tiles_impl; [|apply still_makeInactive]. intros t Ht _. exact Ht.
Qed.

End Layers.

(** ** Applying the dimension state *)

Section Apply.
Import DimensionManager.

Lemma all_tiles_makeActive_tint l :
  all_tiles (fun t => tint t = 0xffffff) (makeActive l).
Proof.
  apply (all_tiles_retile (fun _ => True)); [|apply all_tiles_True].
  intros t _. unfold activeTile; simpl.
  destruct (bool_decide (index t ∈ [0; -1])); reflexivity.
Qed.

Lemma all_tiles_makeActive_collides l :
  all_tiles (fun t => occupied t -> collides t = true) (makeActive l).
Proof.
  apply (all_tiles_retile (fun _ => True)); [|apply all_tiles_True].
  intros t _. unfold activeTile, occupied; simpl.
  destruct (bool_decide (index t ∈ [0; -1])) eqn:He; simpl; [|reflexivity].
  apply bool_decide_eq_true in He. apply excluded_spec in He.
  unfold excluded in He. lia.
Qed.

Lemma all_tiles_makeInactive_tint c l :
  all_tiles (fun t => tint t = c) (makeInactive c l).
Proof.
  apply (all_tiles_retile (fun _ => True)); [|apply all_tiles_True].
  intros t _. reflexivity.
Qed.

Lemma applyDimensionState_diverged m : diverged (applyDimensionState m).
Proof.
  destruct (current m) eqn:Hc.
  - rewrite (applyDimensionState_LUMINA m Hc).
    unfold diverged, getActiveLayer, getInactiveLayer; simpl.
    repeat split;
      auto using all_tiles_makeActive_tint, all_tiles_makeActive_collides,
                 still_makeInactive.
    apply all_tiles_makeInactive_tint.
  - rewrite (applyDimensionState_UMBRA m Hc).
    unfold diverged, getActiveLayer, getInactiveLayer; simpl.
    repeat split;
      auto using all_tiles_makeActive_tint, all_tiles_makeActive_collides,
                 still_makeInactive.
    apply all_tiles_makeInactive_tint.
Qed.

Lemma applyDimensionState_current m :
  current (applyDimensionState m) = current m.
Proof. reflexivity. Qed.

(** C3. Whenever the dimension state is applied, the active layer ends
    with alpha 1, the neutral tint 0xffffff on every cell, collision on
    every occupied cell and depth 1; the inactive layer ends with alpha
    0.2 (below 1), on every cell the ghost tint of its own dimension
    (0xffcc44 for Lumina, 0x6644cc for Umbra) and no collision, and depth
    0, below the active layer.  The current dimension is not changed. *)
Theorem applyDimensionState_sets_both_layers (m : t) :
  let m' := applyDimensionState m in
  let activeLayer := getActiveLayer m' in
  let inactiveLayer := getInactiveLayer m' in
  current m' = current m /\
  alpha activeLayer = 1%Q /\
  all_tiles (fun t => tint t = 0xffffff) activeLayer /\
  all_tiles (fun t => occupied t -> collides t = true) activeLayer /\
  alpha inactiveLayer = (2 # 10)%Q /\
  (alpha inactiveLayer < 1)%Q /\
  all_tiles (fun t => tint t = match current m with
                               | LUMINA => 0x6644cc (* Umbra is the ghost *)
                               | UMBRA => 0xffcc44  (* Lumina is the ghost *)
                               end) inactiveLayer /\
  all_tiles (fun t => collides t = false) inactiveLayer /\
  depth inactiveLayer < depth activeLayer.
Proof.
  intros m' activeLayer inactiveLayer.
  destruct (applyDimensionState_diverged m)
    as (Ha & Htint & Hcol & Hd & Ha' & Htint' & Hcol' & Hd').
  fold m' in Ha, Htint, Hcol, Hd, Ha', Htint', Hcol', Hd'.
  fold activeLayer in Ha, Htint, Hcol, Hd.
  fold inactiveLayer in Ha', Htint', Hcol', Hd'.
  repeat split; try assumption.
  - rewrite Ha'. reflexivity.
  - eapply all_tiles_impl; [|exact Htint']. intros t Ht. rewrite Ht.
    change (current m') with (current m). destruct (current m); reflexivity.
  - rewrite Hd, Hd'. lia.
Qed.

Lemma applyDimensionState_again (m : t) :
  applyDimensionState (applyDimensionState m) = applyDimensionState m.
Proof.
  destruct (current m) eqn:Hc.
  - rewrite (applyDimensionState_LUMINA m Hc).
    rewrite applyDimensionState_LUMINA by reflexivity. simpl.
    rewrite makeActive_idem, makeInactive_idem. reflexivity.
  - rewrite (applyDimensionState_UMBRA m Hc).
    rewrite applyDimensionState_UMBRA by reflexivity. simpl.
    rewrite makeActive_idem, makeInactive_idem. reflexivity.
Qed.

(** C7. [applyDimensionState] is a function: the layers it produces
    are determined by the current dimension and the two layers it is
    given, whatever the lock and the clock are.  It is idempotent: from
    every state, two applications in a row give the same manager state
    (alpha, tint, collision flag and depth of both layers included) as
    one. *)
Theorem applyDimensionState_idempotent :
  (forall m, applyDimensionState (applyDimensionState m) = applyDimensionState m) /\
  (forall cur lum umb b1 clk1 b2 clk2,
      luminaLayer (applyDimensionState (mk cur lum umb b1 clk1)) =
      luminaLayer (applyDimensionState (mk cur lum umb b2 clk2)) /\
      umbraLayer (applyDimensionState (mk cur lum umb b1 clk1)) =
      umbraLayer (applyDimensionState (mk cur lum umb b2 clk2))).
Proof.
  split.
  - exact applyDimensionState_again.
  - intros. split; reflexivity.
Qed.

End Apply.

(** ** The state machine *)

Section Machine.
Import DimensionManager.
Context {Obs : Type}.
Variable onShiftCallback : option (t -> Obs -> Obs).

Lemma shift_locked m o :
  isShifting m = true -> shift onShiftCallback (m, o) = (m, o).
Proof. intros H. unfold shift. rewrite H. reflexivity. Qed.

Lemma shift_open m o :
  isShifting m = false ->
  shift onShiftCallback (m, o) =
  (scheduleUnlock (notified m), notify onShiftCallback (notified m) o).
Proof. intros H. unfold shift. rewrite H. reflexivity. Qed.

Lemma flip_other m : current (flip m) = other (current m).
Proof. unfold flip; simpl. destruct (current m); reflexivity. Qed.

Lemma notified_current m : current (notified m) = other (current m).
Proof. exact (flip_other (lock m)). Qed.

Lemma applied_applyDimensionState m : applied (applyDimensionState m).
Proof.
  unfold applied. rewrite applyDimensionState_again. split; reflexivity.
Qed.

Lemma tidy_applyDimensionState m :
  tidy (luminaLayer m) -> tidy (umbraLayer m) ->
  tidy (luminaLayer (applyDimensionState m)) /\
  tidy (umbraLayer (applyDimensionState m)).
Proof.
  intros Hl Hu. destruct (current m) eqn:Hc.
  - rewrite (applyDimensionState_LUMINA m Hc); simpl.
    split; [apply tidy_makeActive; exact Hl | apply tidy_makeInactive].
  - rewrite (applyDimensionState_UMBRA m Hc); simpl.
    split; [apply tidy_makeInactive | apply tidy_makeActive; exact Hu].
Qed.

Lemma stable_init lum umb : tidy lum -> tidy umb -> stable (init lum umb).
Proof.
  intros Hl Hu. unfold init.
  set (m0 := mk LUMINA lum umb false []).
  destruct (tidy_applyDimensionState m0 Hl Hu) as [Hl' Hu'].
  split; [exact Hl'|]. split; [exact Hu'|].
  split; [apply applied_applyDimensionState|].
  left. split; reflexivity.
Qed.

Lemma stable_shift m o : stable m -> stable (shift onShiftCallback (m, o)).1.
Proof.
  intros (Hl & Hu & Ha & Hg). destruct (isShifting m) eqn:Hs.
  - rewrite shift_locked by exact Hs. exact (conj Hl (conj Hu (conj Ha Hg))).
  - rewrite shift_open by exact Hs. simpl.
    destruct (tidy_applyDimensionState (flip (lock m)) Hl Hu) as [Hl' Hu'].
    split; [exact Hl'|]. split; [exact Hu'|].
    split; [apply (applied_applyDimensionState (flip (lock m)))|].
    right. split; [reflexivity|]. exists 0%N. split; [reflexivity|].
    destruct Hg as [[_ Ht] | [Hs' _]]; [|congruence].
    unfold notified; simpl. rewrite Ht. reflexivity.
Qed.

Lemma update_pending m e delta :
  isShifting m = true -> time m = [mkTimer e SHIFT_DURATION_MS] ->
  (e + delta < SHIFT_DURATION_MS)%N ->
  update delta m =
  mk (current m) (luminaLayer m) (umbraLayer m) true
     [mkTimer (e + delta) SHIFT_DURATION_MS].
Proof.
  intros Hs Ht Hlt. unfold update. rewrite Hs, Ht. simpl.
  unfold due, advance; simpl.
  destruct (N.leb_spec SHIFT_DURATION_MS (e + delta)) as [Hle|_]; [lia|].
  reflexivity.
Qed.

Lemma update_due m e delta :
  time m = [mkTimer e SHIFT_DURATION_MS] ->
  (SHIFT_DURATION_MS <= e + delta)%N ->
  update delta m = mk (current m) (luminaLayer m) (umbraLayer m) false [].
Proof.
  intros Ht Hle. unfold update. rewrite Ht. simpl.
  unfold due, advance; simpl.
  destruct (N.leb_spec SHIFT_DURATION_MS (e + delta)) as [_|Hlt]; [|lia].
  reflexivity.
Qed.

Lemma update_idle m delta :
  isShifting m = false -> time m = [] -> update delta m = m.
Proof.
  intros Hs Ht. destruct m as [c l u b clk]; simpl in *; subst.
  reflexivity.
Qed.

Lemma stable_update m delta : stable m -> stable (update delta m).
Proof.
  intros (Hl & Hu & Ha & Hg).
  destruct Hg as [[Hs Ht] | [Hs (e & He & Ht)]].
  - rewrite update_idle by assumption.
    refine (conj Hl (conj Hu (conj Ha _))). left. split; assumption.
  - destruct (N.lt_ge_cases (e + delta) SHIFT_DURATION_MS) as [Hlt|Hge].
    + rewrite (update_pending m e delta Hs Ht Hlt).
      refine (conj Hl (conj Hu (conj Ha _))).
      right. split; [reflexivity|]. exists (e + delta)%N. split; [exact Hlt|reflexivity].
    + rewrite (update_due m e delta Ht Hge).
      refine (conj Hl (conj Hu (conj Ha _))).
      left. split; reflexivity.
Qed.

Lemma stable_step w ev : stable w.1 -> stable (step onShiftCallback w ev).1.
Proof.
  destruct w as [m o]. destruct ev as [delta|]; simpl.
  - apply stable_update.
  - apply stable_shift.
Qed.

Lemma stable_run evs w : stable w.1 -> stable (run onShiftCallback evs w).1.
Proof.
  revert w. induction evs as [|ev evs IH]; intros w Hw; [exact Hw|].
  simpl. apply IH. apply stable_step. exact Hw.
Qed.

End Machine.

(** The two ways a [shift()] can go, as rewriting steps: dropped, the
    state is unchanged; accepted, it is the notified state with the unlock
    event scheduled. *)
Ltac shift_cases m Hs :=
  destruct (DimensionManager.isShifting m) eqn:Hs;
  [ rewrite shift_locked by exact Hs
  | rewrite shift_open by exact Hs ].

(** ** Building the layers from a level *)

Section Tilemap.
Import GameScene.

Lemma all_tiles_putTileAt (P : Tile -> Prop) v col row l :
  (forall t, P t -> P (mkTile v (tint t) false)) ->
  all_tiles P l -> all_tiles P (putTileAt v col row l).
Proof.
  intros HP Hall. unfold putTileAt.
  destruct (data l !! row) as [cells|] eqn:Hrow; [|exact Hall].
  destruct (cells !! col) as [t|] eqn:Hcol; [|exact Hall].
  unfold all_tiles in *; simpl.
  pose proof (Forall_lookup_1 _ _ _ _ Hall Hrow) as Hcells.
  apply Forall_insert; [exact Hall|].
  apply Forall_insert; [exact Hcells|].
  apply HP. exact (Forall_lookup_1 _ _ _ _ Hcells Hcol).
Qed.

Lemma getTileAt_putTileAt v col row l c r t :
  getTileAt c r (putTileAt v col row l) = Some t ->
  (c = col /\ r = row /\ index t = v) \/ getTileAt c r l = Some t.
Proof.
  unfold putTileAt.
  destruct (data l !! row) as [cells|] eqn:Hrow; [|auto].
  destruct (cells !! col) as [t0|] eqn:Hcol; [|auto].
  unfold getTileAt; simpl.
  destruct (decide (r = row)) as [->|Hr].
  - rewrite list_lookup_insert_eq by (eapply lookup_lt_Some; exact Hrow).
    destruct (decide (c = col)) as [->|Hc].
    + rewrite list_lookup_insert_eq by (eapply lookup_lt_Some; exact Hcol).
      intros [= <-]. left. auto.
    + rewrite list_lookup_insert_ne by congruence.
      rewrite Hrow. auto.
  - rewrite list_lookup_insert_ne by congruence. auto.
Qed.

Lemma all_tiles_createBlankLayer width height :
  all_tiles (fun t => t = blankTile) (createBlankLayer width height).
Proof.
  unfold all_tiles, createBlankLayer; simpl.
  apply Forall_replicate. apply Forall_replicate. reflexivity.
Qed.

Lemma fresh_fillCols cells : forall col row l,
  all_tiles fresh l -> all_tiles fresh (fillCols cells col row l).
Proof.
  induction cells as [|v rest IH]; intros col row l Hl; [exact Hl|].
  simpl. apply IH. destruct (Z.ltb_spec 0 v) as [Hv|_]; [|exact Hl].
  apply all_tiles_putTileAt; [|exact Hl].
  intros t (_ & Ht & _). unfold fresh; simpl. auto.
Qed.

Lemma fresh_fillRows rows : forall row l,
  all_tiles fresh l -> all_tiles fresh (fillRows rows row l).
Proof.
  induction rows as [|cells rest IH]; intros row l Hl; [exact Hl|].
  simpl. apply IH. apply fresh_fillCols. exact Hl.
Qed.

Lemma fresh_createLayer grid : all_tiles fresh (createLayer grid).
Proof.
  apply fresh_fillRows.
  eapply all_tiles_impl; [|apply all_tiles_createBlankLayer].
  intros t ->. unfold fresh; simpl. auto.
Qed.

Lemma tidy_createLayer grid : tidy (createLayer grid).
Proof.
  eapply all_tiles_impl; [|apply fresh_createLayer].
  intros t (Hc & _) _. exact Hc.
Qed.

Lemma from_grid_fillCols grid row cells : forall pre col l,
  grid !! row = Some (pre ++ cells) -> length pre = col ->
  from_grid grid l -> from_grid grid (fillCols cells col row l).
Proof.
  induction cells as [|v rest IH]; intros pre col l Hrow Hlen Hl; [exact Hl|].
  simpl. apply (IH (pre ++ [v])).
  - rewrite <- app_assoc. exact Hrow.
  - rewrite length_app; simpl. lia.
  - destruct (Z.ltb_spec 0 v) as [Hv|_]; [|exact Hl].
    intros c r t Hget.
    destruct (getTileAt_putTileAt _ _ _ _ _ _ _ Hget) as [(-> & -> & Hidx)|Hold].
    + right. rewrite Hidx. split; [exact Hv|].
      exists (pre ++ v :: rest). split; [exact Hrow|].
      subst col. apply list_lookup_middle. reflexivity.
    + exact (Hl _ _ _ Hold).
Qed.

Lemma from_grid_fillRows grid rows : forall pre row l,
  grid = pre ++ rows -> length pre = row ->
  from_grid grid l -> from_grid grid (fillRows rows row l).
Proof.
  induction rows as [|cells rest IH]; intros pre row l Hg Hlen Hl; [exact Hl|].
  simpl. apply (IH (pre ++ [cells])).
  - rewrite <- app_assoc. exact Hg.
  - rewrite length_app; simpl. lia.
  - apply (from_grid_fillCols grid row cells []); [|reflexivity|exact Hl].
    subst grid row. apply list_lookup_middle. reflexivity.
Qed.

Lemma from_grid_createLayer grid : from_grid grid (createLayer grid).
Proof.
  apply (from_grid_fillRows grid grid []); [reflexivity|reflexivity|].
  intros c r t Hget. left.
  pose proof (all_tiles_getTileAt _ _ _ _ _
                (all_tiles_createBlankLayer TILES_X TILES_Y) Hget) as ->.
  reflexivity.
Qed.

Lemma getTileAt_putTileAt_same v col row l :
  getTileAt col row (putTileAt v col row l) = written v <$> getTileAt col row l.
Proof.
  unfold putTileAt, getTileAt.
  destruct (data l !! row) as [cells|] eqn:Hrow; [|rewrite Hrow; reflexivity].
  destruct (cells !! col) as [t0|] eqn:Hcol; simpl.
  - rewrite list_lookup_insert_eq by (eapply lookup_lt_Some; exact Hrow).
    rewrite list_lookup_insert_eq by (eapply lookup_lt_Some; exact Hcol).
    reflexivity.
  - rewrite Hrow, Hcol. reflexivity.
Qed.

Lemma getTileAt_putTileAt_other v col row l c r :
  c <> col \/ r <> row ->
  getTileAt c r (putTileAt v col row l) = getTileAt c r l.
Proof.
  intros Hne. unfold putTileAt.
  destruct (data l !! row) as [cells|] eqn:Hrow; [|reflexivity].
  destruct (cells !! col) as [t0|] eqn:Hcol; [|reflexivity].
  unfold getTileAt; simpl.
  destruct (decide (r = row)) as [->|Hr].
  - rewrite list_lookup_insert_eq by (eapply lookup_lt_Some; exact Hrow).
    rewrite Hrow. apply list_lookup_insert_ne. destruct Hne; congruence.
  - rewrite list_lookup_insert_ne by congruence. reflexivity.
Qed.

Lemma fillCols_other_row c r row cells : forall col l,
  r <> row -> getTileAt c r (fillCols cells col row l) = getTileAt c r l.
Proof.
  induction cells as [|v rest IH]; intros col l Hr; [reflexivity|].
  simpl. rewrite IH by exact Hr.
  destruct (0 <? v); [|reflexivity].
  apply getTileAt_putTileAt_other. right. exact Hr.
Qed.

Lemma fillCols_before c row cells : forall col l,
  (c < col)%nat -> getTileAt c row (fillCols cells col row l) = getTileAt c row l.
Proof.
  induction cells as [|v rest IH]; intros col l Hc; [reflexivity|].
  simpl. rewrite IH by lia.
  destruct (0 <? v); [|reflexivity].
  apply getTileAt_putTileAt_other. left. lia.
Qed.

Lemma fillCols_at c row cells : forall col l v,
  (col <= c)%nat -> cells !! (c - col)%nat = Some v ->
  getTileAt c row (fillCols cells col row l) =
  if 0 <? v then written v <$> getTileAt c row l else getTileAt c row l.
Proof.
  induction cells as [|x rest IH]; intros col l v Hle Hget; [discriminate|].
  simpl. destruct (decide (c = col)) as [->|Hne].
  - rewrite Nat.sub_diag in Hget. injection Hget as ->.
    rewrite fillCols_before by lia.
    destruct (0 <? v); [|reflexivity].
    apply getTileAt_putTileAt_same.
  - replace (c - col)%nat with (S (c - S col)) in Hget by lia.
    simpl in Hget. rewrite (IH (S col) _ v) by (assumption || lia).
    assert (Hsame : getTileAt c row (if 0 <? x then putTileAt x col row l else l)
                    = getTileAt c row l).
    { destruct (0 <? x); [|reflexivity].
      apply getTileAt_putTileAt_other. left. exact Hne. }
    rewrite Hsame. reflexivity.
Qed.

Lemma fillRows_before c r rows : forall row l,
  (r < row)%nat -> getTileAt c r (fillRows rows row l) = getTileAt c r l.
Proof.
  induction rows as [|cells rest IH]; intros row l Hr; [reflexivity|].
  simpl. rewrite IH by lia. apply fillCols_other_row. lia.
Qed.

Lemma fillRows_at c r rows : forall row l cells v,
  (row <= r)%nat -> rows !! (r - row)%nat = Some cells -> cells !! c = Some v ->
  getTileAt c r (fillRows rows row l) =
  if 0 <? v then written v <$> getTileAt c r l else getTileAt c r l.
Proof.
  induction rows as [|x rest IH]; intros row l cells v Hle Hrow Hcol; [discriminate|].
  simpl. destruct (decide (r = row)) as [->|Hne].
  - rewrite Nat.sub_diag in Hrow. injection Hrow as ->.
    rewrite fillRows_before by lia.
    apply fillCols_at; [lia|]. rewrite Nat.sub_0_r. exact Hcol.
  - replace (r - row)%nat with (S (r - S row)) in Hrow by lia.
    simpl in Hrow. rewrite (IH (S row) _ cells v) by (assumption || lia).
    rewrite fillCols_other_row by exact Hne. reflexivity.
Qed.

Lemma getTileAt_createBlankLayer width height col row :
  (col < width)%nat -> (row < height)%nat ->
  getTileAt col row (createBlankLayer width height) = Some blankTile.
Proof.
  intros Hc Hr. unfold getTileAt, createBlankLayer; simpl.
  rewrite lookup_replicate_2 by exact Hr.
  apply lookup_replicate_2. exact Hc.
Qed.

(** An occupied cell of the level inside the 30 x 20 map holds, after
    [createTilemap()], a tile with the cell's value. *)
Lemma createLayer_occupied grid col row cells v :
  grid !! row = Some cells -> cells !! col = Some v -> 0 < v ->
  (col < TILES_X)%nat -> (row < TILES_Y)%nat ->
  getTileAt col row (createLayer grid) = Some (mkTile v NO_TINT false).
Proof.
  intros Hrow Hcol Hv Hc Hr. unfold createLayer.
  rewrite (fillRows_at col row grid 0%nat _ cells v);
    [|lia|rewrite Nat.sub_0_r; exact Hrow|exact Hcol].
  destruct (Z.ltb_spec 0 v) as [_|Hle]; [|lia].
  rewrite getTileAt_createBlankLayer by assumption. reflexivity.
Qed.

Lemma getTileAt_retile a d f l col row :
  getTileAt col row (retile a d f l) = f <$> getTileAt col row l.
Proof.
  unfold getTileAt, retile, setDepth, forEachTile, setAlpha; simpl.
  rewrite list_lookup_fmap.
  destruct (data l !! row) as [cells|]; simpl; [|reflexivity].
  apply list_lookup_fmap.
Qed.

Lemma from_grid_retile grid a d f l :
  (forall t, index (f t) = index t) ->
  from_grid grid l -> from_grid grid (retile a d f l).
Proof.
  intros Hf Hl c r t. rewrite getTileAt_retile.
  destruct (getTileAt c r l) as [t0|] eqn:Hget; simpl; [|discriminate].
  intros [= <-]. rewrite Hf. exact (Hl _ _ _ Hget).
Qed.

Lemma index_activeTile t : index (activeTile t) = index t.
Proof.
  unfold activeTile; simpl. destruct (bool_decide (index t ∈ [0; -1])); reflexivity.
Qed.

Lemma from_grid_makeActive grid l : from_grid grid l -> from_grid grid (makeActive l).
Proof. apply from_grid_retile. apply index_activeTile. Qed.

Lemma from_grid_makeInactive grid c l :
  from_grid grid l -> from_grid grid (makeInactive c l).
Proof. apply from_grid_retile. reflexivity. Qed.

(** A cell whose level value is not positive holds an empty tile. *)
Lemma from_grid_empty grid l col row cells v t :
  from_grid grid l ->
  grid !! row = Some cells -> cells !! col = Some v -> v <= 0 ->
  getTileAt col row l = Some t -> index t = -1.
Proof.
  intros Hl Hrow Hcol Hv Hget.
  destruct (Hl _ _ _ Hget) as [Hi|(Hpos & cells' & Hrow' & Hcol')]; [exact Hi|].
  rewrite Hrow in Hrow'. injection Hrow' as <-.
  rewrite Hcol in Hcol'. injection Hcol' as ->. lia.
Qed.

End Tilemap.

(** ** Runs of the state machine *)

Section Runs.
Import DimensionManager.
Context {Obs : Type}.
Variable onShiftCallback : option (t -> Obs -> Obs).

Lemma stable_start level : stable (start level).
Proof. apply stable_init; apply tidy_createLayer. Qed.

Lemma stable_applyDimensionState m : stable m -> stable (applyDimensionState m).
Proof.
  intros (Hl & Hu & Ha & Hg).
  destruct (tidy_applyDimensionState m Hl Hu) as [Hl' Hu'].
  split; [exact Hl'|]. split; [exact Hu'|].
  split; [apply applied_applyDimensionState|]. exact Hg.
Qed.

Lemma placed_applyDimensionState level m :
  placed level m -> placed level (applyDimensionState m).
Proof.
  intros [Hl Hu]. destruct (current m) eqn:Hc.
  - rewrite (applyDimensionState_LUMINA m Hc). split; simpl.
    + apply from_grid_makeActive. exact Hl.
    + apply from_grid_makeInactive. exact Hu.
  - rewrite (applyDimensionState_UMBRA m Hc). split; simpl.
    + apply from_grid_makeInactive. exact Hl.
    + apply from_grid_makeActive. exact Hu.
Qed.

Lemma placed_start level : placed level (start level).
Proof.
  apply (placed_applyDimensionState level
           (mk LUMINA (GameScene.createLayer (GameScene.lumina level))
               (GameScene.createLayer (GameScene.umbra level)) false [])).
  split; apply from_grid_createLayer.
Qed.

Lemma placed_step level w ev :
  placed level w.1 -> placed level (step onShiftCallback w ev).1.
Proof.
  destruct w as [m o]. destruct ev as [delta|]; cbn [step fst snd].
  - intros H. exact H.
  - intros H. shift_cases m Hs.
    + exact H.
    + exact (placed_applyDimensionState level (flip (lock m)) H).
Qed.

Lemma placed_run level evs w :
  placed level w.1 -> placed level (run onShiftCallback evs w).1.
Proof.
  revert w. induction evs as [|ev evs IH]; intros w Hw; [exact Hw|].
  simpl. apply IH. apply placed_step. exact Hw.
Qed.

Lemma run_cons ev evs w :
  run onShiftCallback (ev :: evs) w =
  run onShiftCallback evs (step onShiftCallback w ev).
Proof. reflexivity. Qed.

Lemma step_Tick delta m o :
  step onShiftCallback (m, o) (Tick delta) = (update delta m, o).
Proof. reflexivity. Qed.

Lemma step_Press w : step onShiftCallback w Press = shift onShiftCallback w.
Proof. reflexivity. Qed.

(** While the pending unlock event is not due, nothing but its age
    changes, whatever is pressed. *)
Lemma run_locked evs : forall m o e,
  isShifting m = true -> time m = [mkTimer e SHIFT_DURATION_MS] ->
  (e + duration evs < SHIFT_DURATION_MS)%N ->
  run onShiftCallback evs (m, o) =
  (mk (current m) (luminaLayer m) (umbraLayer m) true
      [mkTimer (e + duration evs) SHIFT_DURATION_MS], o).
Proof.
  induction evs as [|ev evs IH]; intros m o e Hs Ht Hlt.
  - change (duration []) with 0%N. rewrite N.add_0_r.
    destruct m; simpl in *; subst. reflexivity.
  - rewrite run_cons. destruct ev as [delta|].
    + change (duration (Tick delta :: evs)) with (delta + duration evs)%N in *.
      rewrite step_Tick.
      rewrite (update_pending m e delta Hs Ht) by lia.
      rewrite (IH _ o (e + delta)%N) by (simpl; auto; lia). simpl.
      rewrite N.add_assoc. reflexivity.
    + change (duration (Press :: evs)) with (duration evs) in *.
      rewrite step_Press, shift_locked by exact Hs. apply IH; assumption.
Qed.

Lemma run_idle deltas : forall m o,
  isShifting m = false -> time m = [] ->
  run onShiftCallback (Tick <$> deltas) (m, o) = (m, o).
Proof.
  induction deltas as [|delta deltas IH]; intros m o Hs Ht; [reflexivity|].
  rewrite fmap_cons, run_cons, step_Tick.
  rewrite update_idle by assumption. apply IH; assumption.
Qed.

(** Once the clock has moved by the delay, the lock is free again and
    nothing else has changed. *)
Lemma run_expired deltas : forall m o e,
  isShifting m = true -> time m = [mkTimer e SHIFT_DURATION_MS] ->
  (e < SHIFT_DURATION_MS)%N -> (SHIFT_DURATION_MS <= e + total deltas)%N ->
  run onShiftCallback (Tick <$> deltas) (m, o) =
  (mk (current m) (luminaLayer m) (umbraLayer m) false [], o).
Proof.
  induction deltas as [|delta deltas IH]; intros m o e Hs Ht He Hle.
  - change (total []) with 0%N in Hle. lia.
  - change (total (delta :: deltas)) with (delta + total deltas)%N in Hle.
    rewrite fmap_cons, run_cons, step_Tick.
    destruct (N.lt_ge_cases (e + delta) SHIFT_DURATION_MS) as [Hlt|Hge].
    + rewrite (update_pending m e delta Hs Ht Hlt).
      rewrite (IH _ o (e + delta)%N); simpl; auto; lia.
    + rewrite (update_due m e delta Ht Hge).
      apply run_idle; reflexivity.
Qed.

Lemma control_step_ok w ev :
  control (step onShiftCallback w ev).1 = control_step (control w.1) ev.
Proof.
  destruct w as [m o]. destruct ev as [delta|]; cbn [step fst snd].
  - reflexivity.
  - unfold control at 2. cbn [control_step]. destruct (isShifting m) eqn:Hs.
    + rewrite shift_locked by exact Hs. cbn [fst]. unfold control.
      rewrite Hs. reflexivity.
    + rewrite shift_open by exact Hs. cbn [fst]. unfold control; simpl.
      destruct (current m); reflexivity.
Qed.

Lemma control_run evs : forall w,
  control (run onShiftCallback evs w).1 = foldl control_step (control w.1) evs.
Proof.
  induction evs as [|ev evs IH]; intros w; [reflexivity|].
  rewrite run_cons, IH, control_step_ok. reflexivity.
Qed.

End Runs.

(** ** Properties of the state machine *)

Section MachineProperties.
Import DimensionManager.

Lemma latch_free_clock m : latch m -> isShifting m = false -> time m = [].
Proof. intros [[_ Ht]|[Hs _]] Hf; [exact Ht|congruence]. Qed.

Lemma stable_reached {Obs} (cb : option (t -> Obs -> Obs)) level o evs :
  stable (run cb evs (start level, o)).1.
Proof. apply stable_run. apply stable_start. Qed.

(** C1. A [shift()] made while the lock is held returns with the whole
    state as it was: current dimension, both layers, lock, pending unlock
    event and the listener's state; the function is total, so no error
    is raised.  A [shift()] made with the lock free toggles the current
    dimension.  In a play session, after an accepted [shift()], as long
    as less than 200 ms have passed every further [shift()] is dropped:
    the lock is held, the dimension, the layers and the listener are
    those of the accepted shift, and the one pending unlock event has
    kept its delay of 200 ms.  Once 200 ms or more have passed the lock
    is free and the next [shift()] toggles.  In particular, with calls
    at t=0, t=150 and t=250, the dimension is Umbra after the first,
    still Umbra after the second, and Lumina after the third. *)
Theorem shift_during_lock_is_noop :
  forall (Obs : Type) (cb : option (t -> Obs -> Obs)),
    (forall m o, isShifting m = true -> shift cb (m, o) = (m, o)) /\
    (forall m o, isShifting m = false ->
                 current (shift cb (m, o)).1 = other (current m)) /\
    (forall level o evs0 evs,
        let w := run cb evs0 (start level, o) in
        let w1 := shift cb w in
        isShifting w.1 = false ->
        (duration evs < 200)%N ->
        let w' := run cb evs w1 in
        isShifting w'.1 = true /\
        current w'.1 = current w1.1 /\
        luminaLayer w'.1 = luminaLayer w1.1 /\
        umbraLayer w'.1 = umbraLayer w1.1 /\
        w'.2 = w1.2 /\
        time w'.1 = [mkTimer (duration evs) 200] /\
        shift cb w' = w') /\
    (forall level o evs0 deltas,
        let w := run cb evs0 (start level, o) in
        isShifting w.1 = false ->
        (200 <= total deltas)%N ->
        let w' := run cb (Tick <$> deltas) (shift cb w) in
        isShifting w'.1 = false /\
        current w'.1 = other (current w.1) /\
        current (shift cb w').1 = current w.1) /\
    (forall level o,
        current (run cb [Press] (start level, o)).1 = UMBRA /\
        current (run cb [Press; Tick 150; Press] (start level, o)).1 = UMBRA /\
        current (run cb [Press; Tick 150; Press; Tick 100; Press]
                     (start level, o)).1 = LUMINA).
Proof.
  intros Obs cb. split; [|split; [|split; [|split]]].
  - intros m o. apply shift_locked.
  - intros m o Hs. rewrite shift_open by exact Hs. simpl.
    destruct (current m); reflexivity.
  - intros level o evs0 evs w w1 Hs Hlt w'.
    pose proof (stable_reached cb level o evs0) as (_ & _ & _ & Hg).
    fold w in Hg. pose proof (latch_free_clock _ Hg Hs) as Ht.
    destruct w as [m o0] eqn:Hw. simpl in Hs, Ht.
    assert (Hw1 : w1 = (scheduleUnlock (notified m), notify cb (notified m) o0)).
    { unfold w1. apply shift_open. exact Hs. }
    assert (Hw' : w' = (mk (current (notified m)) (luminaLayer (notified m))
                           (umbraLayer (notified m)) true
                           [mkTimer (0 + duration evs) SHIFT_DURATION_MS],
                        notify cb (notified m) o0)).
    { unfold w'. rewrite Hw1.
      rewrite (run_locked cb evs (scheduleUnlock (notified m)) _ 0%N);
        [reflexivity|reflexivity| |exact Hlt].
      simpl. rewrite Ht. reflexivity. }
    rewrite Hw', Hw1. simpl. repeat split.
  - intros level o evs0 deltas w Hs Hle w'.
    pose proof (stable_reached cb level o evs0) as (_ & _ & _ & Hg).
    fold w in Hg. pose proof (latch_free_clock _ Hg Hs) as Ht.
    destruct w as [m o0] eqn:Hw. simpl in Hs, Ht.
    assert (Hw' : w' = (mk (current (notified m)) (luminaLayer (notified m))
                           (umbraLayer (notified m)) false [],
                        notify cb (notified m) o0)).
    { unfold w'. rewrite shift_open by exact Hs.
      rewrite (run_expired cb deltas (scheduleUnlock (notified m)) _ 0%N);
        [reflexivity|reflexivity| |reflexivity|exact Hle].
      simpl. rewrite Ht. reflexivity. }
    rewrite Hw'. cbn [fst snd]. split; [reflexivity|].
    rewrite shift_open by reflexivity. simpl.
    destruct (current m); split; reflexivity.
  - intros level o.
    assert (H : forall evs,
               current (run cb evs (start level, o)).1 =
               (foldl control_step (LUMINA, false, []) evs).1.1).
    { intros evs.
      exact (f_equal (fun c => c.1.1) (control_run cb evs (start level, o))). }
    rewrite !H. repeat split.
Qed.

Lemma diverged_consistent m : diverged m -> consistent m.
Proof.
  intros (_ & _ & Hc & _ & _ & _ & Hc' & _). split; assumption.
Qed.

Lemma notified_seen m :
  current (notified m) = other (current m) /\
  consistent (notified m) /\
  applyDimensionState (notified m) = notified m.
Proof.
  split; [apply notified_current|]. split.
  - apply diverged_consistent. apply applyDimensionState_diverged.
  - apply applyDimensionState_again.
Qed.

Lemma recorded_step (P : t -> Prop) w ev :
  (forall m, P (notified m)) ->
  Forall P w.2 -> Forall P (step (Some cons) w ev).2.
Proof.
  intros HP Hw. destruct w as [m log]. destruct ev as [delta|].
  - exact Hw.
  - rewrite step_Press. shift_cases m Hs.
    + exact Hw.
    + simpl. constructor; [apply HP|exact Hw].
Qed.

Lemma recorded_run (P : t -> Prop) evs : forall w,
  (forall m, P (notified m)) ->
  Forall P w.2 -> Forall P (run (Some cons) evs w).2.
Proof.
  induction evs as [|ev evs IH]; intros w HP Hw; [exact Hw|].
  rewrite run_cons. apply IH; [exact HP|]. apply recorded_step; assumption.
Qed.

(** C2. In an accepted [shift()] the callback is called exactly once,
    on a manager state [seen] in which the dimension is already toggled
    and [applyDimensionState] has run to its end: the active layer
    collides on every occupied cell, no cell of the inactive layer
    collides, and applying the state again would change nothing.  The
    layers [shift()] returns are the ones the callback saw.  A listener
    that records every state it is called on, over a whole play session,
    records only such states. *)
Theorem callback_sees_applied_layers :
  (forall (Obs : Type) (cb : t -> Obs -> Obs) m o,
      isShifting m = false ->
      let w' := shift (Some cb) (m, o) in
      exists seen,
        w'.2 = cb seen o /\
        current seen = other (current m) /\
        consistent seen /\
        applyDimensionState seen = seen /\
        current w'.1 = current seen /\
        luminaLayer w'.1 = luminaLayer seen /\
        umbraLayer w'.1 = umbraLayer seen) /\
  (forall level evs,
      Forall (fun seen => consistent seen /\ applyDimensionState seen = seen)
             (run (Some cons) evs (start level, [])).2).
Proof.
  split.
  - intros Obs cb m o Hs w'. exists (notified m).
    unfold w'. rewrite shift_open by exact Hs. simpl.
    destruct (notified_seen m) as (Hc & Hcons & Hap).
    repeat split; try assumption; apply Hcons.
  - intros level evs. apply recorded_run; [|constructor].
    intros m. destruct (notified_seen m) as (_ & Hcons & Hap). split; assumption.
Qed.

(** C5. In every manager state exactly one of the two dimensions is
    reported active: Lumina is active exactly when Umbra is not, and the
    active one is the value of [getCurrent()].  A clock update never
    changes it.  A [shift()] leaves it as it is when the call is dropped
    (lock held) and otherwise replaces it by the other dimension, which
    is different from it and is the only different one. *)
Theorem exactly_one_dimension_active :
  (forall m, reportsActive LUMINA m = negb (reportsActive UMBRA m)) /\
  (forall m d, reportsActive d m = true <-> d = getCurrent m) /\
  (forall m delta, getCurrent (update delta m) = getCurrent m) /\
  (forall (Obs : Type) (cb : option (t -> Obs -> Obs)) (w : t * Obs),
      let w' := shift cb w in
      (isShifting w.1 = true /\ getCurrent w'.1 = getCurrent w.1) \/
      (isShifting w.1 = false /\ getCurrent w'.1 = other (getCurrent w.1))) /\
  (forall d, other d <> d /\ forall d', d' <> d -> d' = other d).
Proof.
  split; [|split; [|split; [|split]]].
  - intros m. unfold reportsActive, getCurrent. destruct (current m); reflexivity.
  - intros m d. unfold reportsActive. rewrite bool_decide_eq_true.
    split; intros H; symmetry; exact H.
  - intros m delta. reflexivity.
  - intros Obs cb [m o] w'. unfold w'. cbn [fst]. shift_cases m Hs.
    + left. split; reflexivity.
    + right. split; [reflexivity|]. apply notified_current.
  - intros d. split.
    + destruct d; discriminate.
    + intros d' Hd. destruct d, d'; try reflexivity; congruence.
Qed.

Lemma notified_from_LUMINA m :
  current m = LUMINA ->
  notified m = mk UMBRA (makeInactive LUMINA_TINT (luminaLayer m))
                  (makeActive (umbraLayer m)) true (time m).
Proof.
  intros Hc. unfold notified.
  rewrite applyDimensionState_UMBRA; [reflexivity|].
  simpl. rewrite Hc. reflexivity.
Qed.

Lemma notified_from_UMBRA m :
  current m = UMBRA ->
  notified m = mk LUMINA (makeActive (luminaLayer m))
                  (makeInactive UMBRA_TINT (umbraLayer m)) true (time m).
Proof.
  intros Hc. unfold notified.
  rewrite applyDimensionState_LUMINA; [reflexivity|].
  simpl. rewrite Hc. reflexivity.
Qed.

(** C6. In a play session, from a state with Lumina active and the lock
    free, a [shift()], then clock updates adding up to 200 ms or more,
    then a second [shift()]: both calls are accepted (Umbra is active
    after the first), Lumina is active again after the second, and each
    of the two layers is equal to what it was before the first call, in
    alpha, depth and every tile's index, tint and collision flag. *)
Theorem shift_twice_restores_layers :
  forall (Obs : Type) (cb : option (t -> Obs -> Obs)) level o evs0 deltas,
    let w0 := run cb evs0 (start level, o) in
    let w1 := shift cb w0 in
    let w2 := shift cb (run cb (Tick <$> deltas) w1) in
    current w0.1 = LUMINA ->
    isShifting w0.1 = false ->
    (200 <= total deltas)%N ->
    current w1.1 = UMBRA /\
    current w2.1 = LUMINA /\
    luminaLayer w2.1 = luminaLayer w0.1 /\
    umbraLayer w2.1 = umbraLayer w0.1.
Proof.
  intros Obs cb level o evs0 deltas w0 w1 w2 Hc Hs Hle.
  pose proof (stable_reached cb level o evs0) as (Hl & Hu & Ha & Hg).
  fold w0 in Hl, Hu, Ha, Hg. pose proof (latch_free_clock _ Hg Hs) as Ht.
  destruct w0 as [m o0]. cbn [fst] in *.
  destruct Ha as [Hal Hau].
  rewrite (applyDimensionState_LUMINA m Hc) in Hal, Hau. simpl in Hal, Hau.
  unfold w2, w1. rewrite shift_open by exact Hs. cbn [fst].
  rewrite (run_expired cb deltas (scheduleUnlock (notified m)) _ 0%N);
    [|reflexivity| |reflexivity|exact Hle].
  2:{ simpl. rewrite Ht. reflexivity. }
  rewrite shift_open by reflexivity. cbn [fst].
  rewrite (notified_from_LUMINA m Hc).
  cbn [current luminaLayer umbraLayer isShifting time scheduleUnlock].
  rewrite notified_from_UMBRA by reflexivity.
  cbn [current luminaLayer umbraLayer isShifting time scheduleUnlock].
  rewrite makeActive_makeInactive by exact Hl.
  rewrite makeInactive_makeActive.
  rewrite Hal, Hau. repeat split.
Qed.

Lemma iter_stable_placed level n m :
  stable m -> placed level m ->
  stable (Nat.iter n applyDimensionState m) /\
  placed level (Nat.iter n applyDimensionState m).
Proof.
  intros Hs Hp. induction n as [|n [IHs IHp]]; [split; assumption|].
  simpl. split.
  - apply stable_applyDimensionState. exact IHs.
  - apply placed_applyDimensionState. exact IHp.
Qed.

Lemma empty_cell_still grid l col row cells v t :
  tidy l -> from_grid grid l ->
  grid !! row = Some cells -> cells !! col = Some v -> v <= 0 ->
  getTileAt col row l = Some t -> collides t = false.
Proof.
  intros Htidy Hgrid Hrow Hcol Hv Hget.
  pose proof (from_grid_empty _ _ _ _ _ _ _ Hgrid Hrow Hcol Hv Hget) as Hi.
  apply (all_tiles_getTileAt _ _ _ _ _ Htidy Hget).
  right. exact Hi.
Qed.

(** C8. Take any play session on any level (clock updates and
    [shift()] calls in any order, accepted or dropped), followed by any
    number of further applications of the dimension state.  In the
    resulting state, in both layers, no tile whose index is 0 or -1
    collides; and a cell whose value in the level grid is 0 or negative
    holds a tile that does not collide. *)
Theorem empty_cells_never_collide :
  forall (Obs : Type) (cb : option (t -> Obs -> Obs)) level o evs n,
    let m := Nat.iter n applyDimensionState (run cb evs (start level, o)).1 in
    all_tiles (fun t => index t = 0 \/ index t = -1 -> collides t = false)
              (luminaLayer m) /\
    all_tiles (fun t => index t = 0 \/ index t = -1 -> collides t = false)
              (umbraLayer m) /\
    (forall col row cells v t,
        GameScene.lumina level !! row = Some cells -> cells !! col = Some v ->
        v <= 0 ->
        getTileAt col row (luminaLayer m) = Some t -> collides t = false) /\
    (forall col row cells v t,
        GameScene.umbra level !! row = Some cells -> cells !! col = Some v ->
        v <= 0 ->
        getTileAt col row (umbraLayer m) = Some t -> collides t = false).
Proof.
  intros Obs cb level o evs n m.
  assert (Hs : stable (run cb evs (start level, o)).1) by apply stable_reached.
  assert (Hp : placed level (run cb evs (start level, o)).1).
  { apply placed_run. apply placed_start. }
  destruct (iter_stable_placed level n _ Hs Hp) as [(Hl & Hu & _) [Hpl Hpu]].
  fold m in Hl, Hu, Hpl, Hpu.
  split; [exact Hl|]. split; [exact Hu|]. split.
  - intros col row cells v t. apply empty_cell_still; assumption.
  - intros col row cells v t. apply empty_cell_still; assumption.
Qed.

Lemma applied_diverged m : applied m -> diverged m.
Proof.
  intros [Hl Hu]. pose proof (applyDimensionState_diverged m) as Hd.
  unfold diverged, getActiveLayer, getInactiveLayer in *.
  rewrite applyDimensionState_current in Hd. rewrite Hl, Hu in Hd. exact Hd.
Qed.

Lemma start_luminaLayer level :
  luminaLayer (start level) =
  makeActive (GameScene.createLayer (GameScene.lumina level)).
Proof.
  unfold start, init.
  rewrite applyDimensionState_LUMINA by reflexivity. reflexivity.
Qed.

Lemma start_umbraLayer level :
  umbraLayer (start level) =
  makeInactive UMBRA_TINT (GameScene.createLayer (GameScene.umbra level)).
Proof.
  unfold start, init.
  rewrite applyDimensionState_LUMINA by reflexivity. reflexivity.
Qed.

Lemma activeTile_occupied v c b :
  0 < v -> activeTile (mkTile v c b) = mkTile v 0xffffff true.
Proof.
  intros Hv. unfold activeTile; simpl.
  rewrite bool_decide_eq_false_2; [reflexivity|].
  rewrite !elem_of_cons, elem_of_nil. lia.
Qed.

Lemma getTileAt_makeActive l col row :
  getTileAt col row (makeActive l) = activeTile <$> getTileAt col row l.
Proof. apply (getTileAt_retile 1%Q 1 activeTile). Qed.

Lemma getTileAt_makeInactive c l col row :
  getTileAt col row (makeInactive c l) = inactiveTile c <$> getTileAt col row l.
Proof. apply (getTileAt_retile GHOST_ALPHA 0 (inactiveTile c)). Qed.

(** C10. [init()] applies the dimension state for Lumina: whatever the
    two layers given to it, it returns with Lumina current, the lock
    free, the Lumina layer at alpha 1, untinted, colliding on every
    occupied cell, at depth 1, and the Umbra layer at alpha 0.2, tinted
    0x6644cc on every cell, colliding nowhere, at depth 0, below.  The
    manager [GameScene.create] hands out is this one, built on the two
    layers of the level, and no callback has run by then: an occupied
    cell of the Lumina grid (inside the 30 x 20 map) is there as an
    untinted colliding tile, an occupied cell of the Umbra grid as a
    purple tile that does not collide.  Clock updates alone leave the
    manager as it is, and in every state of every play session the two
    layers are in the state [applyDimensionState] gives them for the
    current dimension. *)
Theorem init_applies_lumina_state :
  (forall lum umb,
      let m := init lum umb in
      getCurrent m = LUMINA /\
      getIsShifting m = false /\
      alpha (luminaLayer m) = 1%Q /\
      all_tiles (fun t => tint t = 0xffffff) (luminaLayer m) /\
      all_tiles (fun t => occupied t -> collides t = true) (luminaLayer m) /\
      depth (luminaLayer m) = 1 /\
      alpha (umbraLayer m) = (2 # 10)%Q /\
      all_tiles (fun t => tint t = 0x6644cc) (umbraLayer m) /\
      all_tiles (fun t => collides t = false) (umbraLayer m) /\
      depth (umbraLayer m) = 0) /\
  (forall level,
      (GameScene.create level).1 =
      init (GameScene.createLayer (GameScene.lumina level))
           (GameScene.createLayer (GameScene.umbra level)) /\
      GameScene.effects (GameScene.create level).2 = []) /\
  (forall level col row cells v,
      GameScene.lumina level !! row = Some cells -> cells !! col = Some v ->
      0 < v -> (col < GameScene.TILES_X)%nat -> (row < GameScene.TILES_Y)%nat ->
      getTileAt col row (luminaLayer (GameScene.create level).1)
      = Some (mkTile v 0xffffff true)) /\
  (forall level col row cells v,
      GameScene.umbra level !! row = Some cells -> cells !! col = Some v ->
      0 < v -> (col < GameScene.TILES_X)%nat -> (row < GameScene.TILES_Y)%nat ->
      getTileAt col row (umbraLayer (GameScene.create level).1)
      = Some (mkTile v 0x6644cc false)) /\
  (forall level deltas,
      (GameScene.play level (Tick <$> deltas)).1 = (GameScene.create level).1) /\
  (forall level evs, diverged (GameScene.play level evs).1).
Proof.
  split; [|split; [|split; [|split; [|split]]]].
  - intros lum umb m.
    pose proof (applyDimensionState_diverged (mk LUMINA lum umb false [])) as Hd.
    destruct Hd as (Ha & Htint & Hcol & Hd & Ha' & Htint' & Hcol' & Hd').
    repeat split; assumption.
  - intros level. split; [reflexivity|].
    unfold GameScene.create, GameScene.spawnEnemies. cbn [snd].
    destruct (GameScene.enemies level); reflexivity.
  - intros level col row cells v Hrow Hcol Hv Hc Hr.
    change (GameScene.create level).1 with (start level).
    rewrite start_luminaLayer, getTileAt_makeActive.
    rewrite (createLayer_occupied _ _ _ _ _ Hrow Hcol Hv Hc Hr). simpl.
    rewrite activeTile_occupied by exact Hv. reflexivity.
  - intros level col row cells v Hrow Hcol Hv Hc Hr.
    change (GameScene.create level).1 with (start level).
    rewrite start_umbraLayer, getTileAt_makeInactive.
    rewrite (createLayer_occupied _ _ _ _ _ Hrow Hcol Hv Hc Hr). reflexivity.
  - intros level deltas. unfold GameScene.play.
    destruct (GameScene.create level) as [m s] eqn:Hw.
    assert (Hm : m = start level).
    { change m with (m, s).1. rewrite <- Hw. reflexivity. }
    rewrite run_idle; [reflexivity| |]; rewrite Hm; reflexivity.
  - intros level evs. apply applied_diverged.
    pose proof (stable_reached (Some GameScene.onDimensionShift) level
                  (GameScene.create level).2 evs) as (_ & _ & Ha & _).
    exact Ha.
Qed.

End MachineProperties.

(** ** Properties of the enemies *)

Section EnemyProperties.
Import DimensionManager.

Lemma onDimensionShift_dimension d e :
  Enemy.dimension (Enemy.onDimensionShift d e) = Enemy.dimension e.
Proof.
  unfold Enemy.onDimensionShift.
  destruct (bool_decide (d = Enemy.dimension e)); reflexivity.
Qed.

Lemma onDimensionShift_isActive d e :
  Enemy.isActive (Enemy.onDimensionShift d e) = bool_decide (d = Enemy.dimension e).
Proof.
  unfold Enemy.onDimensionShift.
  destruct (bool_decide (d = Enemy.dimension e)); reflexivity.
Qed.

Lemma onDimensionShift_home d e :
  d = Enemy.dimension e ->
  Enemy.onDimensionShift d e =
  Enemy.mk (Enemy.dimension e) (Enemy.damage e) true (Enemy.moveSpeed e)
           1%Q 0xffffff true.
Proof.
  intros Hd. unfold Enemy.onDimensionShift.
  rewrite bool_decide_eq_true_2 by exact Hd. reflexivity.
Qed.

Lemma onDimensionShift_away d e :
  d <> Enemy.dimension e ->
  Enemy.onDimensionShift d e =
  Enemy.mk (Enemy.dimension e) (Enemy.damage e) false (Enemy.moveSpeed e)
           (2 # 10)%Q (ghostTint (Enemy.dimension e)) false.
Proof.
  intros Hd. unfold Enemy.onDimensionShift.
  rewrite bool_decide_eq_false_2 by exact Hd.
  destruct (Enemy.dimension e); reflexivity.
Qed.

Lemma onDimensionShift_scene m s :
  GameScene.enemyList (GameScene.onDimensionShift m s) =
  Enemy.onDimensionShift (getCurrent m) <$> GameScene.enemyList s.
Proof. reflexivity. Qed.

(** C4. An enemy told that [d] is now the active dimension keeps its
    home dimension and sets [isActive] to "[d] is my home dimension".
    If it is, the enemy ends with alpha 1, the neutral tint 0xffffff and
    its body enabled; if it is not, with alpha 0.2, the ghost tint of its
    home dimension (0xffcc44 for Lumina, 0x6644cc for Umbra) and its body
    disabled.  The scene's callback tells every enemy of its list, with
    the manager's current dimension; inside an accepted [shift()] that is
    the dimension just made active.  So an enemy whose home is Umbra has
    alpha 1, no tint and an enabled body after a transition to Umbra, and
    alpha 0.2, tint 0x6644cc and a disabled body after the transition
    away. *)
Theorem enemy_follows_active_dimension :
  (forall e d,
      let e' := Enemy.onDimensionShift d e in
      Enemy.dimension e' = Enemy.dimension e /\
      Enemy.isActive e' = bool_decide (Enemy.dimension e = d) /\
      (d = Enemy.dimension e ->
       Enemy.alpha e' = 1%Q /\ Enemy.tint e' = 0xffffff /\
       Enemy.bodyEnable e' = true) /\
      (d <> Enemy.dimension e ->
       Enemy.alpha e' = (2 # 10)%Q /\
       Enemy.tint e' = match Enemy.dimension e with
                       | LUMINA => 0xffcc44
                       | UMBRA => 0x6644cc
                       end /\
       Enemy.bodyEnable e' = false)) /\
  (forall m s,
      GameScene.enemyList (GameScene.onDimensionShift m s) =
      Enemy.onDimensionShift (getCurrent m) <$> GameScene.enemyList s) /\
  (forall m s,
      isShifting m = false ->
      let w' := shift (Some GameScene.onDimensionShift) (m, s) in
      getCurrent w'.1 = other (getCurrent m) /\
      GameScene.enemyList w'.2 =
      Enemy.onDimensionShift (getCurrent w'.1) <$> GameScene.enemyList s) /\
  (forall e,
      Enemy.dimension e = UMBRA ->
      let e1 := Enemy.onDimensionShift UMBRA e in
      let e2 := Enemy.onDimensionShift LUMINA e1 in
      (Enemy.alpha e1 = 1%Q /\ Enemy.tint e1 = 0xffffff /\
       Enemy.bodyEnable e1 = true) /\
      (Enemy.alpha e2 = (2 # 10)%Q /\ Enemy.tint e2 = 0x6644cc /\
       Enemy.bodyEnable e2 = false)).
Proof.
  split; [|split; [|split]].
  - intros e d e'. unfold e'. split; [apply onDimensionShift_dimension|]. split.
    + rewrite onDimensionShift_isActive.
      destruct d, (Enemy.dimension e); reflexivity.
    + split; intros Hd.
      * rewrite (onDimensionShift_home d e Hd). repeat split.
      * rewrite (onDimensionShift_away d e Hd). simpl.
        destruct (Enemy.dimension e); repeat split.
  - intros m s. apply onDimensionShift_scene.
  - intros m s Hs w'. unfold w'. rewrite shift_open by exact Hs. cbn [fst snd].
    split; [exact (notified_current m)|]. reflexivity.
  - intros e He e1 e2. unfold e2, e1.
    rewrite (onDimensionShift_home UMBRA e) by (symmetry; exact He).
    rewrite onDimensionShift_away by (simpl; rewrite He; discriminate).
    simpl. rewrite He. repeat split.
Qed.

Lemma in_step_onDimensionShift d e : in_step d (Enemy.onDimensionShift d e).
Proof.
  unfold in_step, Enemy.canDamage.
  rewrite onDimensionShift_isActive, onDimensionShift_dimension.
  split; [reflexivity|].
  unfold Enemy.onDimensionShift.
  destruct (bool_decide (d = Enemy.dimension e)); reflexivity.
Qed.

Lemma in_step_all d (es : list Enemy.t) :
  Forall (in_step d) (Enemy.onDimensionShift d <$> es).
Proof.
  apply Forall_fmap. apply Forall_forall. intros e _.
  apply in_step_onDimensionShift.
Qed.

Lemma synced_create level : synced (GameScene.create level).
Proof.
  unfold synced, GameScene.create, GameScene.spawnEnemies. cbn [fst snd].
  destruct (GameScene.enemies level) as [spawns|]; simpl.
  - apply in_step_all.
  - constructor.
Qed.

Lemma synced_step w ev :
  synced w -> synced (step (Some GameScene.onDimensionShift) w ev).
Proof.
  destruct w as [m s]. destruct ev as [delta|].
  - intros H. exact H.
  - intros H. rewrite step_Press. shift_cases m Hs.
    + exact H.
    + unfold synced. cbn [fst snd]. apply in_step_all.
Qed.

Lemma synced_play level evs : synced (GameScene.play level evs).
Proof.
  unfold GameScene.play. generalize (synced_create level).
  generalize (GameScene.create level).
  induction evs as [|ev evs IH]; intros w Hw; [exact Hw|].
  rewrite run_cons. apply IH. apply synced_step. exact Hw.
Qed.

Lemma notifications_dimension ds : forall e,
  Enemy.dimension (foldl (fun e d => Enemy.onDimensionShift d e) e ds) =
  Enemy.dimension e.
Proof.
  induction ds as [|d ds IH]; intros e; [reflexivity|].
  simpl. rewrite IH. apply onDimensionShift_dimension.
Qed.

(** C9. After any non-empty sequence of notifications, [canDamage()]
    is true exactly when the last notified dimension is the enemy's home
    dimension.  In every state of every play session, each enemy of the
    scene can damage exactly when the manager's current dimension is its
    home dimension, and its body is enabled exactly then.  The overlap
    handler calls [takeDamage] only for an enemy that can damage; so for
    an enemy of the scene whose home is not the current dimension, the
    handler does nothing, and physics, which skips disabled bodies, does
    not even call it. *)
Theorem ghost_enemy_cannot_damage :
  (forall e ds d,
      Enemy.canDamage (foldl (fun e d => Enemy.onDimensionShift d e) e (ds ++ [d]))
      = bool_decide (d = Enemy.dimension e)) /\
  (forall level evs,
      let w := GameScene.play level evs in
      Forall (fun e =>
                Enemy.canDamage e = bool_decide (getCurrent w.1 = Enemy.dimension e) /\
                Enemy.bodyEnable e = Enemy.canDamage e)
             (GameScene.enemyList w.2)) /\
  (forall e amount,
      GameScene.TakeDamage amount ∈ GameScene.overlapHandler e ->
      Enemy.canDamage e = true /\ amount = Enemy.getDamage e) /\
  (forall level evs e,
      let w := GameScene.play level evs in
      e ∈ GameScene.enemyList w.2 ->
      Enemy.dimension e <> getCurrent w.1 ->
      Enemy.canDamage e = false /\
      Enemy.bodyEnable e = false /\
      GameScene.overlapHandler e = [] /\
      GameScene.overlap e = []).
Proof.
  split; [|split; [|split]].
  - intros e ds d. rewrite foldl_app. simpl. unfold Enemy.canDamage.
    rewrite onDimensionShift_isActive, notifications_dimension. reflexivity.
  - intros level evs w. apply synced_play.
  - intros e amount. unfold GameScene.overlapHandler.
    destruct (Enemy.canDamage e).
    + rewrite !elem_of_cons, elem_of_nil.
      intros [H|[H|[H|[]]]]; try discriminate. injection H as ->. split; reflexivity.
    + rewrite elem_of_nil. intros [].
  - intros level evs e w Hin Hd.
    pose proof (synced_play level evs) as Hall. fold w in Hall.
    unfold synced in Hall. rewrite Forall_forall in Hall.
    destruct (Hall e Hin) as [Hcan Hbody].
    rewrite bool_decide_eq_false_2 in Hcan by congruence.
    rewrite Hcan in Hbody.
    unfold GameScene.overlap, GameScene.overlapHandler.
    rewrite Hbody, Hcan. repeat split.
Qed.

End EnemyProperties.

(** ** Concrete runs *)

Section ConcreteRuns.
Import DimensionManager.

(** The scenario of the design: a shift at t=0, a dropped one at t=50, an
    accepted one at t=210, after which both layers are as at the start. *)
Example scenario_0_50_210 :
  let w0 := GameScene.play demoLevel [] in
  let w1 := GameScene.play demoLevel [Press] in
  let w2 := GameScene.play demoLevel [Press; Tick 50; Press] in
  let w3 := GameScene.play demoLevel [Press; Tick 50; Press; Tick 160; Press] in
  getCurrent w1.1 = UMBRA /\
  time w1.1 = [mkTimer 0 200] /\
  getCurrent w2.1 = UMBRA /\
  luminaLayer w2.1 = luminaLayer w1.1 /\
  umbraLayer w2.1 = umbraLayer w1.1 /\
  w2.2 = w1.2 /\
  getCurrent w3.1 = LUMINA /\
  luminaLayer w3.1 = luminaLayer w0.1 /\
  umbraLayer w3.1 = umbraLayer w0.1.
Proof. vm_compute. repeat split. Qed.

(** The occupied cell of the demo level's Lumina grid, row 0, column 0,
    before and after a shift. *)
Example occupied_cell_0_0 :
  getTileAt 0 0 (luminaLayer (GameScene.play demoLevel []).1)
  = Some (mkTile 1 0xffffff true) /\
  getTileAt 0 0 (luminaLayer (GameScene.play demoLevel [Press]).1)
  = Some (mkTile 1 0xffcc44 false) /\
  getTileAt 1 1 (umbraLayer (GameScene.play demoLevel [Press]).1)
  = Some (mkTile (-1) 0xffffff false).
Proof. vm_compute. repeat split. Qed.

Lemma shift_during_lock_is_noop_witness :
  let w := (start demoLevel, tt) in
  let w1 := shift None w in
  let w' := run None [Tick 150; Press] w1 in
  let w'' := run None (Tick <$> [150; 100]%N) w1 in
  (isShifting w.1 = false /\ (duration [Tick 150; Press] < 200)%N /\
   (200 <= total [150; 100])%N) /\
  (isShifting w'.1 = true /\
   current w'.1 = current w1.1 /\
   luminaLayer w'.1 = luminaLayer w1.1 /\
   umbraLayer w'.1 = umbraLayer w1.1 /\
   w'.2 = w1.2 /\
   time w'.1 = [mkTimer (duration [Tick 150; Press]) 200] /\
   shift None w' = w') /\
  (isShifting w''.1 = false /\
   current w''.1 = other (current w.1) /\
   current (shift None w'').1 = current w.1).
Proof.
  split; [|split].
  - split; [reflexivity|]. split; [reflexivity|]. discriminate.
  - exact (proj1 (proj2 (proj2 (shift_during_lock_is_noop unit None)))
             demoLevel tt [] [Tick 150; Press] eq_refl eq_refl).
  - refine (proj1 (proj2 (proj2 (proj2 (shift_during_lock_is_noop unit None))))
              demoLevel tt [] [150; 100]%N eq_refl _).
    discriminate.
Defined.

Lemma callback_sees_applied_layers_witness :
  let m := start demoLevel in
  let w' := shift (Some cons) (m, []) in
  isShifting m = false /\
  exists seen,
    w'.2 = [seen] /\
    current seen = other (current m) /\
    consistent seen /\
    applyDimensionState seen = seen /\
    current w'.1 = current seen /\
    luminaLayer w'.1 = luminaLayer seen /\
    umbraLayer w'.1 = umbraLayer seen.
Proof.
  split; [reflexivity|].
  exact (proj1 callback_sees_applied_layers (list t) cons (start demoLevel) []
           eq_refl).
Defined.

Lemma applyDimensionState_sets_both_layers_witness :
  let m' := applyDimensionState (flip (start demoLevel)) in
  current m' = UMBRA /\
  alpha (getActiveLayer m') = 1%Q /\
  all_tiles (fun t => tint t = 0xffffff) (getActiveLayer m') /\
  all_tiles (fun t => occupied t -> collides t = true) (getActiveLayer m') /\
  alpha (getInactiveLayer m') = (2 # 10)%Q /\
  (alpha (getInactiveLayer m') < 1)%Q /\
  all_tiles (fun t => tint t = 0xffcc44) (getInactiveLayer m') /\
  all_tiles (fun t => collides t = false) (getInactiveLayer m') /\
  depth (getInactiveLayer m') < depth (getActiveLayer m').
Proof.
  exact (applyDimensionState_sets_both_layers (flip (start demoLevel))).
Defined.

Lemma enemy_follows_active_dimension_witness :
  let e := Enemy.ChaseEnemy in
  let e1 := Enemy.onDimensionShift UMBRA e in
  let e2 := Enemy.onDimensionShift LUMINA e1 in
  Enemy.dimension e = UMBRA /\
  (Enemy.alpha e1 = 1%Q /\ Enemy.tint e1 = 0xffffff /\
   Enemy.bodyEnable e1 = true) /\
  (Enemy.alpha e2 = (2 # 10)%Q /\ Enemy.tint e2 = 0x6644cc /\
   Enemy.bodyEnable e2 = false).
Proof.
  split; [reflexivity|].
  exact (proj2 (proj2 (proj2 enemy_follows_active_dimension))
           Enemy.ChaseEnemy eq_refl).
Defined.

Lemma exactly_one_dimension_active_witness :
  let w := (start demoLevel, tt) in
  let w' := shift None w in
  reportsActive LUMINA w.1 = negb (reportsActive UMBRA w.1) /\
  ((isShifting w.1 = true /\ getCurrent w'.1 = getCurrent w.1) \/
   (isShifting w.1 = false /\ getCurrent w'.1 = other (getCurrent w.1))).
Proof.
  split.
  - exact (proj1 exactly_one_dimension_active (start demoLevel)).
  - exact (proj1 (proj2 (proj2 (proj2 exactly_one_dimension_active)))
             unit None (start demoLevel, tt)).
Defined.

Lemma shift_twice_restores_layers_witness :
  let w0 := run None [] (start demoLevel, tt) in
  let w1 := shift None w0 in
  let w2 := shift None (run None (Tick <$> [120; 90]%N) w1) in
  (current w0.1 = LUMINA /\ isShifting w0.1 = false /\
   (200 <= total [120; 90])%N) /\
  (current w1.1 = UMBRA /\
   current w2.1 = LUMINA /\
   luminaLayer w2.1 = luminaLayer w0.1 /\
   umbraLayer w2.1 = umbraLayer w0.1).
Proof.
  assert (Hle : (200 <= total [120; 90])%N) by discriminate.
  split.
  - split; [reflexivity|]. split; [reflexivity|exact Hle].
  - exact (shift_twice_restores_layers unit None demoLevel tt [] [120; 90]%N
             eq_refl eq_refl Hle).
Defined.

Lemma applyDimensionState_idempotent_witness :
  let m := flip (start demoLevel) in
  applyDimensionState (applyDimensionState m) = applyDimensionState m.
Proof.
  exact (proj1 applyDimensionState_idempotent (flip (start demoLevel))).
Defined.

Lemma empty_cells_never_collide_witness :
  let m := Nat.iter 2 applyDimensionState
             (run None [Press; Tick 250; Press] (start demoLevel, tt)).1 in
  (GameScene.lumina demoLevel !! 0%nat = Some [1; 0] /\
   [1; 0] !! 1%nat = Some 0 /\ 0 <= 0 /\
   getTileAt 1 0 (luminaLayer m) = Some (mkTile (-1) 0xffffff false)) /\
  collides (mkTile (-1) 0xffffff false) = false.
Proof.
  assert (Hget : getTileAt 1 0
                   (luminaLayer
                      (Nat.iter 2 applyDimensionState
                         (run None [Press; Tick 250; Press] (start demoLevel, tt)).1))
                 = Some (mkTile (-1) 0xffffff false)) by (vm_compute; reflexivity).
  assert (Hle : 0 <= 0) by discriminate.
  split.
  - split; [reflexivity|]. split; [reflexivity|]. split; [exact Hle|exact Hget].
  - exact (proj1 (proj2 (proj2
             (empty_cells_never_collide unit None demoLevel tt
                [Press; Tick 250; Press] 2)))
             1%nat 0%nat [1; 0] 0 (mkTile (-1) 0xffffff false)
             eq_refl eq_refl Hle Hget).
Defined.

Lemma ghost_enemy_cannot_damage_witness :
  let w := GameScene.play demoLevel [Press] in
  let e := Enemy.onDimensionShift UMBRA
             (Enemy.onDimensionShift LUMINA Enemy.PatrolEnemy) in
  (e ∈ GameScene.enemyList w.2 /\ Enemy.dimension e <> getCurrent w.1) /\
  (Enemy.canDamage e = false /\
   Enemy.bodyEnable e = false /\
   GameScene.overlapHandler e = [] /\
   GameScene.overlap e = []).
Proof.
  assert (Hin : Enemy.onDimensionShift UMBRA
                  (Enemy.onDimensionShift LUMINA Enemy.PatrolEnemy)
                ∈ GameScene.enemyList (GameScene.play demoLevel [Press]).2).
  { vm_compute. apply list_elem_of_here. }
  assert (Hne : Enemy.dimension
                  (Enemy.onDimensionShift UMBRA
                     (Enemy.onDimensionShift LUMINA Enemy.PatrolEnemy))
                <> getCurrent (GameScene.play demoLevel [Press]).1).
  { vm_compute. discriminate. }
  split; [split; [exact Hin|exact Hne]|].
  exact (proj2 (proj2 (proj2 ghost_enemy_cannot_damage))
           demoLevel [Press] _ Hin Hne).
Defined.

Lemma init_applies_lumina_state_witness :
  let m := (GameScene.create demoLevel).1 in
  (GameScene.lumina demoLevel !! 1%nat = Some [0; 2] /\
   [0; 2] !! 1%nat = Some 2 /\ 0 < 2 /\
   (1 < GameScene.TILES_X)%nat /\ (1 < GameScene.TILES_Y)%nat) /\
  getTileAt 1 1 (luminaLayer m) = Some (mkTile 2 0xffffff true) /\
  getCurrent m = LUMINA /\
  getIsShifting m = false /\
  alpha (luminaLayer m) = 1%Q /\
  all_tiles (fun t => tint t = 0xffffff) (luminaLayer m) /\
  all_tiles (fun t => occupied t -> collides t = true) (luminaLayer m) /\
  depth (luminaLayer m) = 1 /\
  alpha (umbraLayer m) = (2 # 10)%Q /\
  all_tiles (fun t => tint t = 0x6644cc) (umbraLayer m) /\
  all_tiles (fun t => collides t = false) (umbraLayer m) /\
  depth (umbraLayer m) = 0.
Proof.
  assert (Hx : (1 < GameScene.TILES_X)%nat) by (unfold GameScene.TILES_X; lia).
  assert (Hy : (1 < GameScene.TILES_Y)%nat) by (unfold GameScene.TILES_Y; lia).
  split; [|split].
  - split; [reflexivity|]. split; [reflexivity|]. split; [reflexivity|].
    split; [exact Hx|exact Hy].
  - exact (proj1 (proj2 (proj2 init_applies_lumina_state))
             demoLevel 1%nat 1%nat [0; 2] 2 eq_refl eq_refl eq_refl Hx Hy).
  - exact (proj1 init_applies_lumina_state
             (GameScene.createLayer (GameScene.lumina demoLevel))
             (GameScene.createLayer (GameScene.umbra demoLevel))).
Defined.

End ConcreteRuns.

(** * Further properties of the scene and the state machine *)

Section SceneProperties.
Import DimensionManager.

Lemma rebuildCollider_current m s :
  GameScene.activeCollider (GameScene.rebuildCollider m s) = Some (getCurrent m).
Proof.
  unfold GameScene.rebuildCollider, getCurrent; simpl.
  destruct (current m); reflexivity.
Qed.

Lemma play_nil level : GameScene.play level [] = GameScene.create level.
Proof. reflexivity. Qed.

Lemma play_snoc level evs ev :
  GameScene.play level (evs ++ [ev]) =
  step (Some GameScene.onDimensionShift) (GameScene.play level evs) ev.
Proof. unfold GameScene.play, run. rewrite foldl_app. reflexivity. Qed.

(** X1. In every state of every play session the collider between the
    player and the tiles is bound to the layer of the current
    dimension. *)
Theorem collider_follows_dimension :
  forall level evs,
    GameScene.activeCollider (GameScene.play level evs).2 =
    Some (getCurrent (GameScene.play level evs).1).
Proof.
  intros level evs. induction evs as [|ev evs IH] using rev_ind.
  - rewrite play_nil. unfold GameScene.create, GameScene.spawnEnemies.
    cbn [fst snd]. destruct (GameScene.enemies level); reflexivity.
  - rewrite play_snoc. destruct (GameScene.play level evs) as [m s].
    cbn [fst snd] in IH. destruct ev as [delta|].
    + exact IH.
    + rewrite step_Press. shift_cases m Hs.
      * exact IH.
      * exact (rebuildCollider_current (notified m) s).
Qed.



(** X3. At every moment of a run of the state machine, whoever
    listens, the lock is free with no unlock event on the clock, or held
    with exactly one unlock event on the clock, of delay 200 ms and not
    yet due. *)
Theorem one_unlock_event_pending :
  forall (Obs : Type) (cb : option (t -> Obs -> Obs)) level o evs,
    let m := (run cb evs (start level, o)).1 in
    (isShifting m = false /\ time m = []) \/
    (isShifting m = true /\
     exists e, (e < 200)%N /\ time m = [mkTimer e 200]).
Proof.
  intros Obs cb level o evs m.
  pose proof (stable_reached cb level o evs) as (_ & _ & _ & Hg).
  exact Hg.
Qed.

Lemma paced_step n T w ev :
  paced n T w.1 ->
  let w' := step (Some cons) w ev in
  paced (n + (length w'.2 - length w.2))
        (T + duration [ev]) w'.1 /\
  (length w.2 <= length w'.2)%nat.
Proof.
  destruct w as [m log]. intros Hp. cbv zeta. cbn [fst snd] in Hp |- *.
  destruct ev as [delta|].
  - rewrite step_Tick. cbn [fst snd].
    change (duration [Tick delta]) with (delta + 0)%N.
    rewrite Nat.sub_diag, Nat.add_0_r, N.add_0_r. split; [|lia].
    destruct Hp as [(Hs & Ht & Hle) | (Hs & e & k & -> & He & Ht & Hle)].
    + rewrite update_idle by assumption. left. repeat split; try assumption. lia.
    + destruct (N.lt_ge_cases (e + delta) SHIFT_DURATION_MS) as [Hlt|Hge].
      * rewrite (update_pending m e delta Hs Ht Hlt). right.
        split; [reflexivity|]. exists (e + delta)%N, k.
        repeat split; try assumption. lia.
      * rewrite (update_due m e delta Ht Hge). left.
        split; [reflexivity|]. split; [reflexivity|]. lia.
  - rewrite step_Press. change (duration [Press]) with 0%N. rewrite N.add_0_r.
    shift_cases m Hs.
    + cbn [fst snd]. rewrite Nat.sub_diag, Nat.add_0_r. split; [exact Hp|lia].
    + cbn [fst snd]. unfold notify. cbn [length].
      replace (S (length log) - length log)%nat with 1%nat by lia.
      split; [|lia].
      destruct Hp as [(_ & Ht & Hle) | (Hs' & _)]; [|congruence].
      right. split; [reflexivity|]. exists 0%N, n.
      split; [lia|]. split; [reflexivity|]. split.
      * unfold notified; simpl. rewrite Ht. reflexivity.
      * lia.
Qed.

Lemma paced_run evs : forall n T w,
  paced n T w.1 ->
  exists k,
    length (run (Some cons) evs w).2 = (length w.2 + k)%nat /\
    paced (n + k) (T + duration evs) (run (Some cons) evs w).1.
Proof.
  induction evs as [|ev evs IH]; intros n T w Hp.
  - exists 0%nat. change (duration []) with 0%N.
    rewrite !Nat.add_0_r, N.add_0_r. split; [reflexivity|exact Hp].
  - rewrite run_cons.
    destruct (paced_step n T w ev Hp) as [Hp' Hlen].
    destruct (IH _ _ _ Hp') as (k & Hk & Hpk).
    exists (length (step (Some cons) w ev).2 - length w.2 + k)%nat. split.
    + rewrite Hk. lia.
    + replace (T + duration (ev :: evs))%N
        with (T + duration [ev] + duration evs)%N.
      * rewrite Nat.add_assoc. exact Hpk.
      * destruct ev; unfold duration; simpl; lia.
Qed.

(** X4. Accepted shifts are at least 200 ms of clock time apart: in a
    session that lasts [T] milliseconds the callback is called at most
    [T / 200 + 1] times, however often [shift()] is called. *)
Theorem accepted_shifts_are_paced :
  forall level evs,
    (200 * N.of_nat (length (recorded level evs)) <= duration evs + 200)%N.
Proof.
  intros level evs.
  assert (H0 : paced 0 0 (start level, @nil t).1).
  { left. split; [reflexivity|]. split; [reflexivity|]. simpl. lia. }
  destruct (paced_run evs 0%nat 0%N (start level, []) H0) as (k & Hk & Hp).
  unfold recorded. rewrite Hk. cbn [snd length].
  unfold paced, SHIFT_DURATION_MS in Hp.
  destruct Hp as [(_ & _ & Hle) | (_ & e & j & -> & _ & _ & Hle)]; lia.
Qed.







End SceneProperties.

(** * Further properties of the two layers *)

Section LayerProperties.
Import DimensionManager.

Lemma layersFor_LUMINA level :
  layersFor level LUMINA =
  mk LUMINA (makeActive (GameScene.createLayer (GameScene.lumina level)))
     (makeInactive UMBRA_TINT (GameScene.createLayer (GameScene.umbra level)))
     false [].
Proof. unfold layersFor. apply applyDimensionState_LUMINA. reflexivity. Qed.

Lemma layersFor_UMBRA level :
  layersFor level UMBRA =
  mk UMBRA (makeInactive LUMINA_TINT (GameScene.createLayer (GameScene.lumina level)))
     (makeActive (GameScene.createLayer (GameScene.umbra level)))
     false [].
Proof. unfold layersFor. apply applyDimensionState_UMBRA. reflexivity. Qed.

Lemma settled_start level : settled level (start level).
Proof. split; reflexivity. Qed.

Lemma settled_notified level m : settled level m -> settled level (notified m).
Proof.
  intros [Hl Hu]. unfold settled, getCurrent in *.
  destruct (current m) eqn:Hc.
  - rewrite (notified_from_LUMINA m Hc). cbn [current luminaLayer umbraLayer].
    rewrite layersFor_LUMINA in Hl, Hu. cbn [luminaLayer umbraLayer] in Hl, Hu.
    rewrite layersFor_UMBRA. cbn [luminaLayer umbraLayer]. rewrite Hl, Hu.
    rewrite makeInactive_makeActive.
    rewrite makeActive_makeInactive by apply tidy_createLayer.
    split; reflexivity.
  - rewrite (notified_from_UMBRA m Hc). cbn [current luminaLayer umbraLayer].
    rewrite layersFor_UMBRA in Hl, Hu. cbn [luminaLayer umbraLayer] in Hl, Hu.
    rewrite layersFor_LUMINA. cbn [luminaLayer umbraLayer]. rewrite Hl, Hu.
    rewrite makeInactive_makeActive.
    rewrite makeActive_makeInactive by apply tidy_createLayer.
    split; reflexivity.
Qed.

Lemma settled_run {Obs} (cb : option (t -> Obs -> Obs)) level evs : forall w,
  settled level w.1 -> settled level (run cb evs w).1.
Proof.
  induction evs as [|ev evs IH]; intros w Hw; [exact Hw|].
  rewrite run_cons. apply IH. destruct w as [m o]. destruct ev as [delta|].
  - exact Hw.
  - rewrite step_Press. shift_cases m Hs.
    + exact Hw.
    + exact (settled_notified level m Hw).
Qed.

(** X6. Over any run of the state machine, whoever listens, the two
    layers never drift: in every state they are exactly what one
    application of the dimension state makes of the level's freshly built
    layers for the current dimension.  So all states with the same current
    dimension have identical layers, after any number of shifts. *)
Theorem layers_determined_by_dimension :
  forall (Obs : Type) (cb : option (t -> Obs -> Obs)) level o evs,
    let m := (run cb evs (start level, o)).1 in
    luminaLayer m = luminaLayer (layersFor level (getCurrent m)) /\
    umbraLayer m = umbraLayer (layersFor level (getCurrent m)).
Proof.
  intros Obs cb level o evs m.
  exact (settled_run cb level evs (start level, o) (settled_start level)).
Qed.

Lemma inactiveTile_written c v :
  inactiveTile c (mkTile v NO_TINT false) = mkTile v c false.
Proof. reflexivity. Qed.

(** X7. The game's core rule, for every occupied cell of a level inside
    the 30 x 20 map, in every state of every run: the tile is solid
    exactly when its layer's dimension is the current one.  An occupied
    Lumina cell is an untinted colliding tile while Lumina is current and
    a gold (0xffcc44) tile that does not collide while Umbra is; an
    occupied Umbra cell is an untinted colliding tile while Umbra is
    current and a purple (0x6644cc) one that does not collide while Lumina
    is.  The tile keeps the level's value as its index throughout. *)
Theorem occupied_cell_solid_iff_active :
  forall (Obs : Type) (cb : option (t -> Obs -> Obs)) level o evs,
    let m := (run cb evs (start level, o)).1 in
    (forall col row cells v,
        GameScene.lumina level !! row = Some cells -> cells !! col = Some v ->
        0 < v -> (col < GameScene.TILES_X)%nat -> (row < GameScene.TILES_Y)%nat ->
        getTileAt col row (luminaLayer m) =
        Some (match getCurrent m with
              | LUMINA => mkTile v 0xffffff true
              | UMBRA => mkTile v 0xffcc44 false
              end)) /\
    (forall col row cells v,
        GameScene.umbra level !! row = Some cells -> cells !! col = Some v ->
        0 < v -> (col < GameScene.TILES_X)%nat -> (row < GameScene.TILES_Y)%nat ->
        getTileAt col row (umbraLayer m) =
        Some (match getCurrent m with
              | UMBRA => mkTile v 0xffffff true
              | LUMINA => mkTile v 0x6644cc false
              end)).
Proof.
  intros Obs cb level o evs m.
  destruct (settled_run cb level evs (start level, o) (settled_start level))
    as [Hl Hu].
  fold m in Hl, Hu. rewrite Hl, Hu. unfold getCurrent.
  split; intros col row cells v Hrow Hcol Hv Hc Hr;
    destruct (current m).
  - rewrite layersFor_LUMINA. cbn [luminaLayer]. rewrite getTileAt_makeActive.
    rewrite (createLayer_occupied _ _ _ _ _ Hrow Hcol Hv Hc Hr). simpl.
    rewrite activeTile_occupied by exact Hv. reflexivity.
  - rewrite layersFor_UMBRA. cbn [luminaLayer]. rewrite getTileAt_makeInactive.
    rewrite (createLayer_occupied _ _ _ _ _ Hrow Hcol Hv Hc Hr). reflexivity.
  - rewrite layersFor_LUMINA. cbn [umbraLayer]. rewrite getTileAt_makeInactive.
    rewrite (createLayer_occupied _ _ _ _ _ Hrow Hcol Hv Hc Hr). reflexivity.
  - rewrite layersFor_UMBRA. cbn [umbraLayer]. rewrite getTileAt_makeActive.
    rewrite (createLayer_occupied _ _ _ _ _ Hrow Hcol Hv Hc Hr). simpl.
    rewrite activeTile_occupied by exact Hv. reflexivity.
Qed.

Lemma putTileAt_domain v col row l c r :
  is_Some (getTileAt c r (putTileAt v col row l)) <-> is_Some (getTileAt c r l).
Proof.
  destruct (decide (c = col /\ r = row)) as [[-> ->]|Hne].
  - rewrite getTileAt_putTileAt_same. apply fmap_is_Some.
  - rewrite getTileAt_putTileAt_other; [reflexivity|].
    destruct (decide (c = col)) as [->|Hc]; [right|left; exact Hc].
    intros ->. apply Hne. auto.
Qed.

Lemma fillCols_domain c r row cells : forall col l,
  is_Some (getTileAt c r (GameScene.fillCols cells col row l)) <->
  is_Some (getTileAt c r l).
Proof.
  induction cells as [|v rest IH]; intros col l; [reflexivity|].
  simpl. rewrite IH. destruct (0 <? v); [apply putTileAt_domain|reflexivity].
Qed.

Lemma fillRows_domain c r rows : forall row l,
  is_Some (getTileAt c r (GameScene.fillRows rows row l)) <->
  is_Some (getTileAt c r l).
Proof.
  induction rows as [|cells rest IH]; intros row l; [reflexivity|].
  simpl. rewrite IH. apply fillCols_domain.
Qed.

Lemma createBlankLayer_domain width height col row :
  is_Some (getTileAt col row (createBlankLayer width height)) <->
  (col < width)%nat /\ (row < height)%nat.
Proof.
  split.
  - unfold getTileAt, createBlankLayer; simpl. intros [t Ht].
    destruct (replicate height (replicate width blankTile) !! row)
      as [cells|] eqn:Hrow; [|discriminate].
    apply lookup_replicate in Hrow as [-> Hr].
    apply lookup_replicate in Ht as [_ Hc]. split; assumption.
  - intros [Hc Hr]. rewrite getTileAt_createBlankLayer by assumption. eauto.
Qed.

Lemma createLayer_domain grid col row :
  is_Some (getTileAt col row (GameScene.createLayer grid)) <->
  (col < GameScene.TILES_X)%nat /\ (row < GameScene.TILES_Y)%nat.
Proof.
  unfold GameScene.createLayer. rewrite fillRows_domain.
  apply createBlankLayer_domain.
Qed.

Lemma layersFor_domain level d col row :
  (is_Some (getTileAt col row (luminaLayer (layersFor level d))) <->
   (col < GameScene.TILES_X)%nat /\ (row < GameScene.TILES_Y)%nat) /\
  (is_Some (getTileAt col row (umbraLayer (layersFor level d))) <->
   (col < GameScene.TILES_X)%nat /\ (row < GameScene.TILES_Y)%nat).
Proof.
  destruct d.
  - rewrite layersFor_LUMINA. cbn [luminaLayer umbraLayer].
    rewrite getTileAt_makeActive, getTileAt_makeInactive, !fmap_is_Some.
    split; apply createLayer_domain.
  - rewrite layersFor_UMBRA. cbn [luminaLayer umbraLayer].
    rewrite getTileAt_makeActive, getTileAt_makeInactive, !fmap_is_Some.
    split; apply createLayer_domain.
Qed.

Lemma unlisted_cell_empty grid l col row t :
  tidy l -> from_grid grid l ->
  gridCell grid col row = None ->
  getTileAt col row l = Some t -> index t = -1 /\ collides t = false.
Proof.
  intros Htidy Hgrid Hnone Hget.
  assert (Hi : index t = -1).
  { destruct (Hgrid _ _ _ Hget) as [Hi|(_ & cells & Hrow & Hcol)]; [exact Hi|].
    unfold gridCell in Hnone. rewrite Hrow, Hcol in Hnone. discriminate. }
  split; [exact Hi|].
  apply (all_tiles_getTileAt _ _ _ _ _ Htidy Hget). right. exact Hi.
Qed.

(** X8. Whatever the size and shape of a level's grids, in every state
    of every run both layers are 30 tiles wide and 20 tiles high: a tile
    exists at a column and row exactly when the column is below 30 and the
    row below 20.  Level cells outside that area are dropped; a place of
    the map for which the level's grid has no cell (a short or missing
    row) holds an empty tile, index -1, that does not collide. *)
Theorem layers_keep_map_size :
  forall (Obs : Type) (cb : option (t -> Obs -> Obs)) level o evs,
    let m := (run cb evs (start level, o)).1 in
    (forall col row,
        (is_Some (getTileAt col row (luminaLayer m)) <->
         (col < 30)%nat /\ (row < 20)%nat) /\
        (is_Some (getTileAt col row (umbraLayer m)) <->
         (col < 30)%nat /\ (row < 20)%nat)) /\
    (forall col row tile,
        gridCell (GameScene.lumina level) col row = None ->
        getTileAt col row (luminaLayer m) = Some tile ->
        index tile = -1 /\ collides tile = false) /\
    (forall col row tile,
        gridCell (GameScene.umbra level) col row = None ->
        getTileAt col row (umbraLayer m) = Some tile ->
        index tile = -1 /\ collides tile = false).
Proof.
  intros Obs cb level o evs m.
  destruct (settled_run cb level evs (start level, o) (settled_start level))
    as [Hl Hu].
  pose proof (stable_reached cb level o evs) as (Htl & Htu & _ & _).
  assert (Hp : placed level (run cb evs (start level, o)).1).
  { apply placed_run. apply placed_start. }
  destruct Hp as [Hpl Hpu].
  fold m in Hl, Hu, Htl, Htu, Hpl, Hpu.
  split; [|split].
  - intros col row. rewrite Hl, Hu.
    exact (layersFor_domain level (getCurrent m) col row).
  - intros col row tile. apply unlisted_cell_empty; assumption.
  - intros col row tile. apply unlisted_cell_empty; assumption.
Qed.

End LayerProperties.

(** * Properties of the touch controls *)

Section TouchProperties.
Import TouchControls.

Lemma pointers_cons ev ptrs s :
  pointers (ev :: ptrs) s = pointers ptrs (dispatch s ev).
Proof. reflexivity. Qed.

Lemma heldAfter_cons b ev ptrs init :
  heldAfter b (ev :: ptrs) init =
  heldAfter b ptrs (if bool_decide (ev.1 = b)
                    then bool_decide (ev.2 = pointerdown) else init).
Proof. reflexivity. Qed.

Lemma pressedIn_cons b ev ptrs :
  pressedIn b (ev :: ptrs) =
  bool_decide (ev = (b, pointerdown)) || pressedIn b ptrs.
Proof. reflexivity. Qed.

Lemma pointers_state ptrs : forall s,
  isTouchDevice s = true ->
  pointers ptrs s =
  mk true
     (heldAfter btnLeft ptrs (_leftDown s))
     (heldAfter btnRight ptrs (_rightDown s))
     (_jumpJustPressed s || pressedIn btnJump ptrs)
     (_shiftJustPressed s || pressedIn btnShift ptrs).
Proof.
  induction ptrs as [|[b p] ptrs IH]; intros s Ht.
  - destruct s as [touch l r j sh]; simpl in *; subst.
    rewrite !orb_false_r. reflexivity.
  - rewrite pointers_cons, !heldAfter_cons, !pressedIn_cons.
    unfold dispatch at 1. rewrite Ht. cbn [fst snd].
    destruct b, p; cbn [onDown onUp]; rewrite IH by exact Ht; simpl;
      rewrite ?orb_true_r, ?orb_false_r; reflexivity.
Qed.

Lemma pointers_no_touch ptrs : forall s,
  isTouchDevice s = false -> pointers ptrs s = s.
Proof.
  induction ptrs as [|ev ptrs IH]; intros s Ht; [reflexivity|].
  rewrite pointers_cons. unfold dispatch at 1. rewrite Ht. apply IH. exact Ht.
Qed.

Lemma run_cons_touch ev evs w : run (ev :: evs) w = run evs (step w ev).
Proof. reflexivity. Qed.

Lemma no_touch_run evs : forall s log,
  s = new false -> Forall (fun st => st = noInput) log ->
  (run evs (s, log)).1 = new false /\
  Forall (fun st => st = noInput) (run evs (s, log)).2.
Proof.
  induction evs as [|ev evs IH]; intros s log -> Hlog; [split; [reflexivity|exact Hlog]|].
  rewrite run_cons_touch. destruct ev as [b p|].
  - apply IH; [reflexivity|exact Hlog].
  - apply IH; [reflexivity|]. constructor; [reflexivity|exact Hlog].
Qed.

(** X9. On a touch device, what [getState()] returns is decided by the
    pointer events since the previous read: it reports a jump (a shift)
    exactly when the jump (shift) button went down at least once since
    then, whether or not it was released, so a tap between two reads is
    never lost, several taps count once, and a button that stays down is
    not reported again; it reports left (right) held exactly when the last
    event on that button was a pointerdown, or when there was none and the
    button was held before.  On a device without touch every read reports
    no input at all, whatever happens. *)
Theorem getState_reports_events_since_last_read :
  (forall s ptrs,
      isTouchDevice s = true ->
      let afterRead := (getState s).2 in
      (getState (pointers ptrs afterRead)).1 =
      mkInput (heldAfter btnLeft ptrs (_leftDown s))
              (heldAfter btnRight ptrs (_rightDown s))
              (pressedIn btnJump ptrs)
              (pressedIn btnShift ptrs)) /\
  (forall evs,
      Forall (fun st => st = noInput) (run evs (new false, [])).2).
Proof.
  split.
  - intros s ptrs Ht afterRead. unfold afterRead.
    rewrite pointers_state by exact Ht. reflexivity.
  - intros evs. apply (no_touch_run evs (new false) []); [reflexivity|constructor].
Qed.

End TouchProperties.

(** * Properties of the enemies' per-frame AI *)

Section PatrolProperties.
Import PatrolEnemy.

Lemma gt_spec a b : PatrolEnemy.gt a b = true <-> (b < a)%Q.
Proof.
  unfold PatrolEnemy.gt. rewrite negb_true_iff.
  split.
  - intros H. apply Qnot_le_lt. intros Hle.
    apply Qle_bool_iff in Hle. congruence.
  - intros H. destruct (Qle_bool a b) eqn:E; [|reflexivity].
    apply Qle_bool_iff in E. exfalso. exact (Qlt_not_le _ _ H E).
Qed.

(** What every history keeps of a patrol enemy. *)
Lemma patrol_kept evs : forall e,
  (patrolDir e = 1 \/ patrolDir e = -1) ->
  Enemy.moveSpeed (base e) = 50 ->
  (velocityX e = 0 \/ velocityX e = 50 \/ velocityX e = -50) ->
  let e' := run evs e in
  (patrolDir e' = 1 \/ patrolDir e' = -1) /\
  Enemy.moveSpeed (base e') = 50 /\
  (velocityX e' = 0 \/ velocityX e' = 50 \/ velocityX e' = -50).
Proof.
  induction evs as [|ev evs IH]; intros e Hd Hm Hv; [repeat split; assumption|].
  change (run (ev :: evs) e) with (run evs (step e ev)).
  destruct ev as [d|x' l r|]; cbn [step].
  - apply IH; try assumption.
    cbn [onDimensionShift base]. unfold Enemy.onDimensionShift.
    destruct (bool_decide (d = Enemy.dimension (base e))); exact Hm.
  - apply IH; assumption.
  - unfold updateAI.
    destruct (negb (Enemy.isActive (base e))).
    + apply IH; simpl; auto.
    + apply IH.
      * cbn [setFlipX patrolDir].
        destruct (PatrolEnemy.gt _ _).
        -- cbn [setPatrolDir patrolDir]. destruct (PatrolEnemy.gt _ _); auto.
        -- destruct (_ || _); cbn [setPatrolDir setVelocityX patrolDir]; lia.
      * cbn [setFlipX base].
        destruct (PatrolEnemy.gt _ _); destruct (_ || _); exact Hm.
      * cbn [setFlipX velocityX].
        assert (Hvel : Enemy.moveSpeed (base e) * patrolDir e = 50 \/
                       Enemy.moveSpeed (base e) * patrolDir e = -50) by lia.
        destruct (PatrolEnemy.gt _ _); destruct (_ || _);
          cbn [setPatrolDir setVelocityX velocityX]; lia.
Qed.

Lemma updateAI_active e :
  Enemy.isActive (base e) = true ->
  updateAI e =
  let d1 := if blockedLeft e || blockedRight e
            then patrolDir e * -1 else patrolDir e in
  let d2 := if PatrolEnemy.gt (Qabs (x e - startX e)) (patrolRange e)
            then (if PatrolEnemy.gt (x e) (startX e) then -1 else 1)
            else d1 in
  mk (base e) d2 (patrolRange e) (startX e) (x e) (d2 <? 0)
     (Enemy.moveSpeed (base e) * patrolDir e) (blockedLeft e) (blockedRight e).
Proof.
  intros Ha. unfold updateAI. rewrite Ha. cbn [negb].
  cbv beta zeta delta [setVelocityX setPatrolDir setFlipX].
  cbn [blockedLeft blockedRight].
  destruct (blockedLeft e || blockedRight e);
    cbn [x startX patrolRange patrolDir];
    destruct (PatrolEnemy.gt (Qabs (x e - startX e)) (patrolRange e));
    reflexivity.
Qed.

Lemma updateAI_ghost e :
  Enemy.isActive (base e) = false -> updateAI e = setVelocityX 0 e.
Proof. intros Ha. unfold updateAI. rewrite Ha. reflexivity. Qed.

Lemma gt_false a b : (a <= b)%Q -> PatrolEnemy.gt a b = false.
Proof.
  intros Hle. destruct (PatrolEnemy.gt a b) eqn:E; [|reflexivity].
  apply gt_spec in E. exfalso. exact (Qlt_not_le _ _ E Hle).
Qed.

(** X10. A patrol enemy, after any history of dimension shifts, physics
    steps and AI updates: its direction is 1 or -1 and its horizontal
    velocity 0, 50 or -50.  An AI update leaves its inherited state
    (home dimension, danger flag, alpha, tint, body) untouched.  On a
    ghosted enemy it only sets the velocity to 0: direction and facing are
    kept.  On an active one it sets the velocity to 50 in the direction
    held before the update, then chooses the new direction: beyond the
    patrol range, towards the start ([-1] right of it, [1] otherwise),
    whatever the walls; within the range, reversed when a wall blocks and
    kept otherwise; and it faces the new direction. *)
Theorem patrol_enemy_update :
  forall x0 range evs,
    let e := run evs (new x0 range) in
    let e' := updateAI e in
    (patrolDir e = 1 \/ patrolDir e = -1) /\
    (velocityX e = 0 \/ velocityX e = 50 \/ velocityX e = -50) /\
    base e' = base e /\
    (Enemy.canDamage (base e) = false ->
     velocityX e' = 0 /\ patrolDir e' = patrolDir e /\ flipX e' = flipX e) /\
    (Enemy.canDamage (base e) = true ->
     velocityX e' = 50 * patrolDir e /\
     flipX e' = (patrolDir e' <? 0) /\
     ((patrolRange e < Qabs (x e - startX e))%Q ->
      ((startX e < x e)%Q -> patrolDir e' = -1) /\
      ((x e <= startX e)%Q -> patrolDir e' = 1)) /\
     ((Qabs (x e - startX e) <= patrolRange e)%Q ->
      patrolDir e' = if blockedLeft e || blockedRight e
                     then - patrolDir e else patrolDir e)).
Proof.
  intros x0 range evs e e'.
  destruct (patrol_kept evs (new x0 range)) as (Hd & Hm & Hv);
    [left; reflexivity | reflexivity | left; reflexivity |].
  fold e in Hd, Hm, Hv.
  split; [exact Hd|]. split; [exact Hv|].
  unfold e', Enemy.canDamage.
  destruct (Enemy.isActive (base e)) eqn:Ha.
  - rewrite (updateAI_active e Ha). cbv zeta. cbn [base velocityX flipX patrolDir].
    split; [reflexivity|]. split; [discriminate|]. intros _.
    split; [rewrite Hm; reflexivity|]. split; [reflexivity|]. split.
    + intros Hout. apply gt_spec in Hout. rewrite Hout. split.
      * intros Hx. apply gt_spec in Hx. rewrite Hx. reflexivity.
      * intros Hx. rewrite (gt_false _ _ Hx). reflexivity.
    + intros Hin. rewrite (gt_false _ _ Hin).
      destruct (blockedLeft e || blockedRight e); lia.
  - rewrite (updateAI_ghost e Ha).
    split; [reflexivity|]. split; [|discriminate].
    intros _. repeat split.
Qed.

End PatrolProperties.

Section ChaseProperties.
Import ChaseEnemy.

Lemma chase_gt_spec a b : ChaseEnemy.gt a b = true <-> (b < a)%Q.
Proof. exact (gt_spec a b). Qed.

Lemma chase_lt_spec a b : ChaseEnemy.lt a b = true <-> (a < b)%Q.
Proof. exact (gt_spec b a). Qed.

Lemma chase_speed_kept evs : forall e,
  Enemy.moveSpeed (base e) = 70 -> Enemy.moveSpeed (base (run evs e)) = 70.
Proof.
  induction evs as [|ev evs IH]; intros e Hm; [exact Hm|].
  change (run (ev :: evs) e) with (run evs (step e ev)). apply IH.
  destruct ev as [d|x'|playerX pulse]; cbn [step].
  - cbn [onDimensionShift base]. unfold Enemy.onDimensionShift.
    destruct (bool_decide (d = Enemy.dimension (base e))); exact Hm.
  - exact Hm.
  - unfold updateAI. destruct (negb (Enemy.isActive (base e))); [exact Hm|].
    destruct (ChaseEnemy.gt _ _); [exact Hm|].
    destruct (ChaseEnemy.lt _ _); [exact Hm|].
    destruct (isChasing e); exact Hm.
Qed.

Lemma chase_updateAI_ghost playerX pulse e :
  Enemy.isActive (base e) = false ->
  updateAI playerX pulse e =
  mk (base e) (detectionRange e) false (x e) (flipX e) 0.
Proof. intros Ha. unfold updateAI. rewrite Ha. reflexivity. Qed.

Lemma chase_updateAI_active playerX pulse e :
  Enemy.isActive (base e) = true ->
  updateAI playerX pulse e =
  let distance := Qabs (playerX - x e) in
  let chasing :=
    if ChaseEnemy.gt distance (detectionRange e * (15 # 10)) then false
    else if ChaseEnemy.lt distance (detectionRange e) then true
         else isChasing e in
  let dir := if ChaseEnemy.gt (playerX - x e) 0 then 1 else -1 in
  if chasing
  then mk (setAlpha pulse (base e)) (detectionRange e) true (x e) (dir <? 0)
          (Enemy.moveSpeed (base e) * dir)
  else mk (base e) (detectionRange e) false (x e) (flipX e) 0.
Proof.
  intros Ha. unfold updateAI. rewrite Ha. cbn [negb]. cbv zeta.
  destruct (ChaseEnemy.gt (Qabs (playerX - x e)) (detectionRange e * (15 # 10)));
    destruct (ChaseEnemy.lt (Qabs (playerX - x e)) (detectionRange e));
    try reflexivity; destruct (isChasing e); reflexivity.
Qed.

Lemma chase_updateAI_base playerX pulse e :
  let e' := updateAI playerX pulse e in
  Enemy.dimension (base e') = Enemy.dimension (base e) /\
  Enemy.canDamage (base e') = Enemy.canDamage (base e) /\
  Enemy.tint (base e') = Enemy.tint (base e) /\
  Enemy.bodyEnable (base e') = Enemy.bodyEnable (base e).
Proof.
  cbv zeta. destruct (Enemy.isActive (base e)) eqn:Ha.
  - rewrite (chase_updateAI_active playerX pulse e Ha). cbv zeta.
    destruct (if ChaseEnemy.gt _ _ then false else _); repeat split.
  - rewrite (chase_updateAI_ghost playerX pulse e Ha). repeat split.
Qed.

Lemma chase_gt_false a b : (a <= b)%Q -> ChaseEnemy.gt a b = false.
Proof. exact (gt_false a b). Qed.

Lemma chase_lt_false a b : (b <= a)%Q -> ChaseEnemy.lt a b = false.
Proof. exact (gt_false b a). Qed.

(** X11. A chase enemy, after any history, at an AI update with the
    player at [playerX].  The update never changes the enemy's home
    dimension, danger flag, tint or body.  A ghosted enemy stops chasing
    and stands still, its alpha untouched.  An active one starts chasing
    when the player is closer than the detection range, gives up when the
    player is farther than one and a half times the range, and in between
    goes on as before.  While chasing it moves at 70 towards the player
    (to the left when exactly level with it) and takes the pulsing alpha;
    while not chasing it stands still and keeps its alpha. *)
Theorem chase_enemy_update :
  forall x0 range evs playerX pulse,
    let e := run evs (new x0 range) in
    let e' := updateAI playerX pulse e in
    let distance := Qabs (playerX - x e) in
    (Enemy.dimension (base e') = Enemy.dimension (base e) /\
     Enemy.canDamage (base e') = Enemy.canDamage (base e) /\
     Enemy.tint (base e') = Enemy.tint (base e) /\
     Enemy.bodyEnable (base e') = Enemy.bodyEnable (base e)) /\
    (Enemy.canDamage (base e) = false ->
     isChasing e' = false /\ velocityX e' = 0 /\ base e' = base e) /\
    (Enemy.canDamage (base e) = true ->
     ((distance < detectionRange e)%Q -> isChasing e' = true) /\
     ((detectionRange e * (15 # 10) < distance)%Q -> isChasing e' = false) /\
     ((detectionRange e <= distance)%Q ->
      (distance <= detectionRange e * (15 # 10))%Q ->
      isChasing e' = isChasing e) /\
     (isChasing e' = true ->
      ((x e < playerX)%Q -> velocityX e' = 70 /\ flipX e' = false) /\
      ((playerX <= x e)%Q -> velocityX e' = -70 /\ flipX e' = true) /\
      Enemy.alpha (base e') = pulse) /\
     (isChasing e' = false -> velocityX e' = 0 /\ base e' = base e)).
Proof.
  intros x0 range evs playerX pulse e e' distance.
  pose proof (chase_speed_kept evs (new x0 range) eq_refl) as Hm. fold e in Hm.
  pose proof (Qabs_nonneg (playerX - x e)) as H0. fold distance in H0.
  split; [exact (chase_updateAI_base playerX pulse e)|].
  unfold e'. destruct (Enemy.isActive (base e)) eqn:Ha.
  - unfold Enemy.canDamage. rewrite Ha. split; [discriminate|]. intros _.
    rewrite (chase_updateAI_active playerX pulse e Ha). cbv zeta.
    fold distance. rewrite Hm.
    destruct (ChaseEnemy.gt distance (detectionRange e * (15 # 10))) eqn:Hfar.
    + (* farther than one and a half times the range *)
      apply chase_gt_spec in Hfar. cbn [isChasing velocityX base flipX].
      split; [intros H; exfalso; lra|]. split; [reflexivity|].
      split; [intros _ H; exfalso; lra|]. split; [discriminate|].
      intros _. split; reflexivity.
    + assert (Hnotfar : (distance <= detectionRange e * (15 # 10))%Q).
      { apply Qnot_lt_le. intros H. apply chase_gt_spec in H. congruence. }
      assert (Hdir : ((x e < playerX)%Q ->
                      (if ChaseEnemy.gt (playerX - x e) 0 then 1 else -1) = 1) /\
                     ((playerX <= x e)%Q ->
                      (if ChaseEnemy.gt (playerX - x e) 0 then 1 else -1) = -1)).
      { split; intros Hx.
        - assert (Hg : ChaseEnemy.gt (playerX - x e) 0 = true)
            by (apply chase_gt_spec; lra).
          rewrite Hg. reflexivity.
        - rewrite chase_gt_false by lra. reflexivity. }
      destruct Hdir as [Hright Hleft].
      destruct (ChaseEnemy.lt distance (detectionRange e)) eqn:Hnear.
      * (* closer than the range *)
        apply chase_lt_spec in Hnear. cbn [isChasing velocityX base flipX].
        split; [reflexivity|]. split; [intros H; exfalso; lra|].
        split; [intros H _; exfalso; lra|]. split; [|discriminate].
        intros _. split; [|split; [|reflexivity]].
        -- intros Hx. rewrite (Hright Hx). split; reflexivity.
        -- intros Hx. rewrite (Hleft Hx). split; reflexivity.
      * assert (Hnotnear : (detectionRange e <= distance)%Q).
        { apply Qnot_lt_le. intros H. apply chase_lt_spec in H. congruence. }
        destruct (isChasing e) eqn:Hch; cbn [isChasing velocityX base flipX].
        -- split; [intros H; exfalso; lra|]. split; [intros H; exfalso; lra|].
           split; [reflexivity|]. split; [|discriminate].
           intros _. split; [|split; [|reflexivity]].
           ++ intros Hx. rewrite (Hright Hx). split; reflexivity.
           ++ intros Hx. rewrite (Hleft Hx). split; reflexivity.
        -- split; [intros H; exfalso; lra|]. split; [reflexivity|].
           split; [reflexivity|]. split; [discriminate|].
           intros _. split; reflexivity.
  - unfold Enemy.canDamage. rewrite Ha. split; [|discriminate]. intros _.
    rewrite (chase_updateAI_ghost playerX pulse e Ha). repeat split.
Qed.

End ChaseProperties.

(** * Properties of the level flow, the player particles and the hearts *)

Section LevelFlowProperties.
Import LevelFlow.

Lemma inRange_init (levels i : Z) :
  0 <= i < levels -> inRange levels (init (Some i)).
Proof.
  intros Hi. unfold inRange, init. cbn.
  split; [exact Hi|]. split.
  - intros j Hj. inversion Hj.
  - intros H. discriminate H.
Qed.

Lemma inRange_index (levels : Z) (s : t) :
  inRange levels s -> 0 <= currentLevelIndex s < levels.
Proof. intros [H _]. exact H. Qed.

Lemma inRange_completeLevel (levels : Z) (s : t) :
  inRange levels s -> inRange levels (completeLevel levels s).
Proof.
  intros Hs. pose proof Hs as (Hi & Hp & Hv). unfold completeLevel.
  destruct (levelComplete s) eqn:Hc.
  - exact Hs.
  - destruct (currentLevelIndex s + 1 <? levels) eqn:Hn.
    + apply Z.ltb_lt in Hn. unfold inRange. cbn.
      split; [exact Hi|]. split.
      * intros j Hj. apply elem_of_app in Hj as [Hj|Hj].
        -- destruct (Hp j Hj) as (_ & _ & Habs). congruence.
        -- apply list_elem_of_singleton in Hj. injection Hj as ->.
           split; [reflexivity|]. split; [exact Hn|reflexivity].
      * intros H. destruct (Hv H) as [Habs _]. congruence.
    + apply Z.ltb_ge in Hn. unfold inRange. cbn.
      split; [exact Hi|]. split.
      * intros j Hj. destruct (Hp j Hj) as (_ & _ & Habs). congruence.
      * intros _. split; [reflexivity|lia].
Qed.

Lemma inRange_handlePlayerDeath (levels : Z) (s : t) :
  inRange levels s -> inRange levels (handlePlayerDeath s).
Proof.
  intros (Hi & Hp & Hv). unfold inRange, handlePlayerDeath. cbn.
  split; [exact Hi|]. split; [|exact Hv].
  intros j Hj. apply elem_of_app in Hj as [Hj|Hj].
  - exact (Hp j Hj).
  - apply list_elem_of_singleton in Hj. discriminate Hj.
Qed.

Lemma inRange_step (levels : Z) (s : t) (ev : Event) :
  0 < levels -> inRange levels s -> inRange levels (step levels s ev).
Proof.
  intros Hl Hs. destruct ev as [| | |k|]; cbn [step].
  - destruct (levelComplete s); [exact Hs|].
    apply inRange_completeLevel. exact Hs.
  - apply inRange_handlePlayerDeath. exact Hs.
  - apply inRange_init. apply (inRange_index _ _ Hs).
  - destruct (pending s !! k) as [[j|]|] eqn:Hk.
    + apply list_elem_of_lookup_2 in Hk.
      destruct Hs as (Hi & Hp & _). destruct (Hp j Hk) as (-> & Hj & _).
      apply inRange_init. lia.
    + apply inRange_init. apply (inRange_index _ _ Hs).
    + exact Hs.
  - destruct (victoryShown s); [|exact Hs].
    apply inRange_init. lia.
Qed.

Lemma inRange_run (levels : Z) (evs : list Event) (s : t) :
  0 < levels -> inRange levels s -> inRange levels (run levels evs s).
Proof.
  intros Hl. revert s. induction evs as [|ev evs IH]; intros s Hs.
  - exact Hs.
  - apply IH. apply inRange_step; assumption.
Qed.

(** X12. Whatever happens in a game that starts at a level of the
    list (exits reached, deaths, restarts with R, delayed calls firing
    in any order, a new game after the victory screen), the level index
    stays an index of the level list; a pending advance is always to
    the next level, which exists; and the victory screen is only shown
    on the completed last level. *)
Theorem level_index_stays_in_range (levels i0 : Z) (evs : list Event) :
  0 <= i0 < levels ->
  let s := run levels evs (init (Some i0)) in
  0 <= currentLevelIndex s < levels /\
  (forall i, RestartWith i ∈ pending s ->
             i = currentLevelIndex s + 1 /\ i < levels /\
             levelComplete s = true) /\
  (victoryShown s = true ->
   levelComplete s = true /\ currentLevelIndex s = levels - 1).
Proof.
  intros Hi s.
  assert (Hl : 0 < levels) by lia.
  exact (inRange_run levels evs _ Hl (inRange_init levels i0 Hi)).
Qed.

End LevelFlowProperties.

Section ParticleProperties.
Import PlayerParticles.
Local Open Scope Q_scope.

Lemma particles_gt_spec (a b : Q) : gt a b = true <-> b < a.
Proof.
  unfold gt. rewrite negb_true_iff.
  destruct (Qle_bool a b) eqn:H.
  - apply Qle_bool_iff in H. split; [discriminate|].
    intros Hlt. exfalso. apply (Qlt_not_le _ _ Hlt). exact H.
  - split; [|reflexivity]. intros _. apply Qnot_le_lt.
    intros Hle. apply Qle_bool_iff in Hle. congruence.
Qed.

Lemma particles_gt_false (a b : Q) : gt a b = false <-> a <= b.
Proof.
  unfold gt. rewrite negb_false_iff. apply Qle_bool_iff.
Qed.

Lemma countEffect_app (fx : Effect) (l l' : list Effect) :
  countEffect fx (l ++ l') = (countEffect fx l + countEffect fx l')%nat.
Proof.
  unfold countEffect. rewrite List.filter_app, length_app. reflexivity.
Qed.

Lemma trails_app (l l' : list Effect) :
  trails (l ++ l') == trails l + trails l'.
Proof.
  unfold trails. rewrite countEffect_app, Nat2Z.inj_add, inject_Z_plus.
  reflexivity.
Qed.

Lemma trails_landing (b : bool) :
  trails (if b then [EmitLandingDust; PlayLand] else []) == 0.
Proof. destruct b; reflexivity. Qed.

(** One frame keeps the timer within its period and pays for each
    emission with eighty milliseconds of air time. *)
Lemma updatePlayerParticles_budget (body : option bool) (delta : Q) (s : t) :
  0 <= delta -> 0 <= jumpParticleTimer s <= 80 ->
  let r := updatePlayerParticles body delta s in
  0 <= jumpParticleTimer r.1 <= 80 /\
  80 * trails r.2 + jumpParticleTimer r.1 <=
    jumpParticleTimer s + airTime [(body, delta)].
Proof.
  intros Hd Ht. unfold updatePlayerParticles, airTime. cbn [foldr fst snd].
  destruct body as [[|]|]; cbn [negb fst snd].
  - rewrite trails_app, trails_landing. cbn [jumpParticleTimer].
    change (trails []) with 0. split; lra.
  - rewrite andb_false_l.
    destruct (gt (jumpParticleTimer s + delta) 80) eqn:Hg;
      cbn [fst snd jumpParticleTimer app].
    + apply particles_gt_spec in Hg.
      change (trails [EmitJumpParticle]) with 1. split; lra.
    + apply particles_gt_false in Hg.
      change (trails []) with 0. split; lra.
  - cbn [fst snd]. change (trails []) with 0. split; lra.
Qed.

Lemma airTime_cons (frame : option bool * Q) (frames : list (option bool * Q)) :
  airTime (frame :: frames) == airTime [frame] + airTime frames.
Proof.
  unfold airTime. cbn [foldr]. destruct frame as [[[|]|] d]; cbn [fst snd]; lra.
Qed.

Lemma run_budget (frames : list (option bool * Q)) (w : t * list Effect) (A : Q) :
  Forall (fun frame => 0 <= frame.2) frames ->
  0 <= jumpParticleTimer w.1 <= 80 ->
  80 * trails w.2 + jumpParticleTimer w.1 <= A ->
  0 <= jumpParticleTimer (run frames w).1 <= 80 /\
  80 * trails (run frames w).2 + jumpParticleTimer (run frames w).1 <=
    A + airTime frames.
Proof.
  revert w A. induction frames as [|frame frames IH]; intros w A Hf Ht Hb.
  - cbn. change (airTime []) with 0. split; [exact Ht|lra].
  - inversion Hf as [|? ? Hd Hf']; subst.
    pose proof (updatePlayerParticles_budget frame.1 frame.2 w.1 Hd Ht) as Hu.
    cbv zeta in Hu. destruct Hu as [Ht' Hb'].
    change (run (frame :: frames) w)
      with (run frames ((updatePlayerParticles frame.1 frame.2 w.1).1,
                        w.2 ++ (updatePlayerParticles frame.1 frame.2 w.1).2)).
    assert (Hframe : airTime [(frame.1, frame.2)] == airTime [frame])
      by (destruct frame; reflexivity).
    destruct (IH ((updatePlayerParticles frame.1 frame.2 w.1).1,
                  w.2 ++ (updatePlayerParticles frame.1 frame.2 w.1).2)
                 (A + airTime [frame]) Hf' Ht') as [H1 H2].
    + cbn [fst snd]. rewrite trails_app. rewrite Hframe in Hb'. lra.
    + split; [exact H1|]. rewrite airTime_cons. lra.
Qed.

(** X13. Over any run of frames with non-negative deltas, the jump
    trail timer stays between 0 and 80, and eighty milliseconds of air
    time pass for every jump particle emitted: 80 times the number of
    emissions, plus the time on the timer, is at most the time the
    player has spent off the ground. *)
Theorem jump_particles_are_paced (frames : list (option bool * Q)) :
  Forall (fun frame => 0 <= frame.2) frames ->
  let r := run frames (mk false 0, []) in
  0 <= jumpParticleTimer r.1 <= 80 /\
  80 * inject_Z (Z.of_nat (countEffect EmitJumpParticle r.2)) +
    jumpParticleTimer r.1 <= airTime frames.
Proof.
  intros Hf r.
  destruct (run_budget frames (mk false 0, []) 0 Hf) as [H1 H2].
  - cbn. split; lra.
  - cbn. change (trails []) with 0. lra.
  - split; [exact H1|]. unfold trails in H2. fold r in H2. lra.
Qed.

End ParticleProperties.

Section HudProperties.
Import Hud.

Lemma drawHearts_S (health : Z) (icons : nat) :
  drawHearts health (S icons) =
  drawHearts health icons ++
  [{| color := if Z.of_nat icons <? health then HEALTH_FULL else HEALTH_EMPTY;
      rectX := 16 + Z.of_nat icons * 22; rectY := 16; rectWidth := 18;
      rectHeight := 18; radius := 4 |}].
Proof.
  unfold drawHearts. rewrite seq_S, fmap_app. reflexivity.
Qed.

Lemma drawHearts_lookup (health : Z) (icons i : nat) (heart : Heart) :
  drawHearts health icons !! i = Some heart ->
  (i < icons)%nat /\
  heart = {| color := if Z.of_nat i <? health then HEALTH_FULL else HEALTH_EMPTY;
             rectX := 16 + Z.of_nat i * 22; rectY := 16; rectWidth := 18;
             rectHeight := 18; radius := 4 |}.
Proof.
  unfold drawHearts. rewrite list_lookup_fmap.
  destruct (seq 0 icons !! i) as [k|] eqn:Hk; [|discriminate].
  apply lookup_seq in Hk as [-> Hlt]. cbn. intros H. injection H as <-.
  split; [exact Hlt|reflexivity].
Qed.

Lemma fullHearts_drawHearts (health : Z) (icons : nat) :
  fullHearts (drawHearts health icons) =
  Z.to_nat (Z.min (Z.max health 0) (Z.of_nat icons)).
Proof.
  induction icons as [|n IH].
  - cbn. lia.
  - rewrite drawHearts_S. unfold fullHearts in *.
    rewrite List.filter_app, length_app, IH. cbn [List.filter color].
    destruct (Z.of_nat n <? health) eqn:Hn.
    + apply Z.ltb_lt in Hn. cbn. lia.
    + apply Z.ltb_ge in Hn. cbn. lia.
Qed.

(** X14. [drawHearts()] draws one heart per icon; the hearts left of
    the player's health are red and the others grey, so that the number
    of red hearts is the health, cut to the range from 0 to the number
    of icons; and no two hearts overlap. *)
Theorem hearts_show_health (health : Z) (icons : nat) :
  length (drawHearts health icons) = icons /\
  fullHearts (drawHearts health icons) =
    Z.to_nat (Z.min (Z.max health 0) (Z.of_nat icons)) /\
  (forall i heart, drawHearts health icons !! i = Some heart ->
     (color heart = HEALTH_FULL <-> Z.of_nat i < health) /\
     (color heart = HEALTH_EMPTY <-> health <= Z.of_nat i)) /\
  (forall i j hi hj, (i < j)%nat ->
     drawHearts health icons !! i = Some hi ->
     drawHearts health icons !! j = Some hj ->
     rectX hi + rectWidth hi < rectX hj).
Proof.
  split; [|split; [|split]].
  - unfold drawHearts. rewrite length_fmap, length_seq. reflexivity.
  - apply fullHearts_drawHearts.
  - intros i heart Hi. apply drawHearts_lookup in Hi as [_ ->]. cbn [color].
    destruct (Z.of_nat i <? health) eqn:Hlt.
    + apply Z.ltb_lt in Hlt. split; split; intros H; try reflexivity;
        try exact Hlt; try discriminate H; lia.
    + apply Z.ltb_ge in Hlt. split; split; intros H; try reflexivity;
        try exact Hlt; try discriminate H; lia.
  - intros i j hi hj Hij Hi Hj.
    apply drawHearts_lookup in Hi as [_ ->].
    apply drawHearts_lookup in Hj as [_ ->]. cbn [rectX rectWidth]. lia.
Qed.

End HudProperties.

(** * The further properties at concrete inputs *)

Section FurtherRuns.
Import Phaser DimensionManager.

Lemma occupied_cell_solid_iff_active_witness :
  let m := (run None [Press] (start demoLevel, tt)).1 in
  (GameScene.lumina demoLevel !! 0%nat = Some [1; 0] /\
   [1; 0] !! 0%nat = Some 1 /\ 0 < 1 /\
   (0 < GameScene.TILES_X)%nat /\ (0 < GameScene.TILES_Y)%nat) /\
  getTileAt 0 0 (luminaLayer m) = Some (mkTile 1 0xffcc44 false).
Proof.
  assert (Hc : (0 < GameScene.TILES_X)%nat) by (unfold GameScene.TILES_X; lia).
  assert (Hr : (0 < GameScene.TILES_Y)%nat) by (unfold GameScene.TILES_Y; lia).
  split.
  - split; [reflexivity|]. split; [reflexivity|]. split; [reflexivity|].
    split; [exact Hc|exact Hr].
  - exact (proj1 (occupied_cell_solid_iff_active unit None demoLevel tt [Press])
             0%nat 0%nat [1; 0] 1 eq_refl eq_refl eq_refl Hc Hr).
Defined.

Lemma layers_keep_map_size_witness :
  let m := (run None [Press] (start demoLevel, tt)).1 in
  (gridCell (GameScene.lumina demoLevel) 5 0 = None /\
   getTileAt 5 0 (luminaLayer m) = Some (mkTile (-1) 0xffcc44 false)) /\
  index (mkTile (-1) 0xffcc44 false) = -1 /\
  collides (mkTile (-1) 0xffcc44 false) = false.
Proof.
  assert (Hget : getTileAt 5 0
                   (luminaLayer (run None [Press] (start demoLevel, tt)).1)
                 = Some (mkTile (-1) 0xffcc44 false)) by (vm_compute; reflexivity).
  split.
  - split; [reflexivity|exact Hget].
  - exact (proj1 (proj2 (layers_keep_map_size unit None demoLevel tt [Press]))
             5%nat 0%nat (mkTile (-1) 0xffcc44 false) eq_refl Hget).
Defined.

Lemma getState_reports_events_since_last_read_witness :
  let s := TouchControls.onDown TouchControls.btnLeft (TouchControls.new true) in
  let ptrs := [(TouchControls.btnJump, TouchControls.pointerdown);
               (TouchControls.btnJump, TouchControls.pointerup);
               (TouchControls.btnLeft, TouchControls.pointerout)] in
  TouchControls.isTouchDevice s = true /\
  (TouchControls.getState (pointers ptrs (TouchControls.getState s).2)).1 =
  TouchControls.mkInput false false true false.
Proof.
  split; [reflexivity|].
  exact (proj1 getState_reports_events_since_last_read
           (TouchControls.onDown TouchControls.btnLeft (TouchControls.new true))
           [(TouchControls.btnJump, TouchControls.pointerdown);
            (TouchControls.btnJump, TouchControls.pointerup);
            (TouchControls.btnLeft, TouchControls.pointerout)] eq_refl).
Defined.

Lemma patrol_enemy_update_witness :
  let e := PatrolEnemy.run [PatrolEnemy.Shift LUMINA;
                            PatrolEnemy.Physics 100 false false]
             (PatrolEnemy.new 0 64) in
  (Enemy.canDamage (PatrolEnemy.base e) = true /\
   (PatrolEnemy.patrolRange e
    < Qabs (PatrolEnemy.x e - PatrolEnemy.startX e))%Q /\
   (PatrolEnemy.startX e < PatrolEnemy.x e)%Q) /\
  PatrolEnemy.patrolDir (PatrolEnemy.updateAI e) = -1.
Proof.
  split.
  - split; [reflexivity|]. split; reflexivity.
  - exact (proj1
             (proj1 (proj2 (proj2
                (proj2 (proj2 (proj2 (proj2
                   (patrol_enemy_update 0 64
                      [PatrolEnemy.Shift LUMINA;
                       PatrolEnemy.Physics 100 false false]))))
                   eq_refl)))
                eq_refl)
             eq_refl).
Defined.

Lemma chase_enemy_update_witness :
  let e := ChaseEnemy.run [ChaseEnemy.Shift UMBRA] (ChaseEnemy.new 0 100) in
  let e' := ChaseEnemy.updateAI 40 (9 # 10) e in
  (Enemy.canDamage (ChaseEnemy.base e) = true /\
   (Qabs (40 - ChaseEnemy.x e) < ChaseEnemy.detectionRange e)%Q) /\
  ChaseEnemy.isChasing e' = true.
Proof.
  split.
  - split; reflexivity.
  - exact (proj1
             (proj2 (proj2
                (chase_enemy_update 0 100 [ChaseEnemy.Shift UMBRA] 40 (9 # 10)))
                eq_refl)
             eq_refl).
Defined.

Lemma level_index_stays_in_range_witness :
  let s := LevelFlow.run 3
             [LevelFlow.AtExit; LevelFlow.PlayerDied; LevelFlow.Fire 0;
              LevelFlow.AtExit; LevelFlow.AtExit; LevelFlow.Fire 0;
              LevelFlow.AtExit]
             (LevelFlow.init (Some 0)) in
  0 <= 0 < 3 /\
  0 <= LevelFlow.currentLevelIndex s < 3 /\
  (forall i, LevelFlow.RestartWith i ∈ LevelFlow.pending s ->
             i = LevelFlow.currentLevelIndex s + 1 /\ i < 3 /\
             LevelFlow.levelComplete s = true) /\
  (LevelFlow.victoryShown s = true ->
   LevelFlow.levelComplete s = true /\ LevelFlow.currentLevelIndex s = 3 - 1).
Proof.
  assert (H : 0 <= 0 < 3) by lia.
  split; [exact H|].
  exact (level_index_stays_in_range 3 0
           [LevelFlow.AtExit; LevelFlow.PlayerDied; LevelFlow.Fire 0;
            LevelFlow.AtExit; LevelFlow.AtExit; LevelFlow.Fire 0;
            LevelFlow.AtExit] H).
Defined.

Lemma jump_particles_are_paced_witness :
  let frames := [(Some false, 50%Q); (Some false, 50%Q); (None, 16%Q);
                 (Some false, 30%Q); (Some true, 16%Q)] in
  let r := PlayerParticles.run frames (PlayerParticles.mk false 0, []) in
  Forall (fun frame : option bool * Q => (0 <= frame.2)%Q) frames /\
  (0 <= PlayerParticles.jumpParticleTimer r.1 <= 80)%Q /\
  (80 * inject_Z (Z.of_nat (countEffect PlayerParticles.EmitJumpParticle r.2)) +
     PlayerParticles.jumpParticleTimer r.1 <= airTime frames)%Q.
Proof.
  assert (H : Forall (fun frame : option bool * Q => (0 <= frame.2)%Q)
                [(Some false, 50%Q); (Some false, 50%Q); (None, 16%Q);
                 (Some false, 30%Q); (Some true, 16%Q)]).
  { repeat constructor; discriminate. }
  split; [exact H|].
  exact (jump_particles_are_paced _ H).
Defined.

End FurtherRuns.
